(** * Library catalogue: a shallow embedding of [library.cpp]

    The program is a small object model: publications (books, magazines,
    e-books) living on the heap behind [shared_ptr]s, a [Reader] that
    borrows books, a [Library] that lists publications, an [Admin] role and a
    generic [printList].  Every method either flips the availability flag
    of a heap object, pushes a pointer onto a vector, or writes to [cout].

    The embedding keeps that shape:
    - a heap of objects addressed by locations; a [shared_ptr] is an optional
      location ([None] is the null pointer), so two pointers to one object
      are equal locations and a write through one is seen through the other;
    - [cout] is the text written so far;
    - a method is a function in a state-and-failure monad over the pair
      (heap, cout).  A method fails only when it dereferences a non-null
      pointer that is not a live object of the static type, which the C++
      type system and [shared_ptr] exclude. *)

From Stdlib Require Import ZArith String Ascii DecimalString DecimalPos DecimalZ.
From stdpp Require Import base option gmap list strings.

Open Scope Z_scope.

(** ** Stream formatting

    What [operator<<] writes for the types the program prints, with the
    stream in its initial state (decimal base, precision 6, no floatfield
    flag, the "C" locale): the program never changes a stream flag. *)

Module Ostream.

(** The two characters that cannot be typed inside a literal. *)
Definition dquote : string := String "034"%char EmptyString.
Definition nl : string := String "010"%char EmptyString.

(** [cout << i] for an [int]: decimal digits, a leading minus sign for
    negative values. *)
Definition show_int (z : Z) : string :=
  NilZero.string_of_int (Z.to_int z).

(** A [double]: a binary64 value.  A finite value is [m * 2^e] with a
    sign; zeros, infinities and NaNs carry their sign bit, which the stream
    prints. *)
Inductive double : Set :=
| DZero (s : bool)
| DInf (s : bool)
| DNaN (s : bool)
| DFinite (s : bool) (m : positive) (e : Z).

(** [cout << d] for a [double] prints as [printf("%g")] does with
    precision 6.  All arithmetic below is exact, on the fraction [n / d]. *)
Definition precision : Z := 6.

(** The positive fraction [n / d] of value [m * 2^e]. *)
Definition fraction (m : positive) (e : Z) : Z * Z :=
  if 0 <=? e then (Z.pos m * 2 ^ e, 1) else (Z.pos m, 2 ^ (- e)).

(** Number of decimal digits of a positive number. *)
Fixpoint count_digits (fuel : nat) (n : Z) : Z :=
  match fuel with
  | O => 1
  | S fuel' => if n <? 10 then 1 else 1 + count_digits fuel' (n / 10)
  end.

Definition ndigits (n : Z) : Z := count_digits (Z.to_nat (Z.log2 n)) n.

(** The fraction [n / d] multiplied by [10 ^ k], for any sign of [k]. *)
Definition scale10 (n d k : Z) : Z * Z :=
  if 0 <=? k then (n * 10 ^ k, d) else (n, d * 10 ^ (- k)).

(** The [x] with [10^x <= n/d < 10^(x+1)], for positive [n] and [d]: from
    the digits of the quotient when it is at least 1, and otherwise from
    the least power of ten that brings [n] up to [d]. *)
Definition decimal_exponent (n d : Z) : Z :=
  if d <=? n then ndigits (n / d) - 1 else - ndigits ((d - 1) / n).

(** Rounding of [n / d] to an integer, ties to the even neighbour. *)
Definition round_half_even (n d : Z) : Z :=
  let q := n / d in
  match 2 * (n mod d) ?= d with
  | Lt => q
  | Gt => q + 1
  | Eq => if Z.even q then q else q + 1
  end.

(** [n / d] rounded to [p] significant digits: the digits as an integer of
    exactly [p] digits, and the decimal exponent of the first one.  When
    rounding carries into a new digit the exponent grows by one. *)
Definition significant (p n d : Z) : Z * Z :=
  let x := decimal_exponent n d in
  let '(n', d') := scale10 n d (p - 1 - x) in
  let q := round_half_even n' d' in
  if q =? 10 ^ p then (10 ^ (p - 1), x + 1) else (q, x).

(** What [significant] is to deliver: [q] has exactly [p] digits, and
    [q * 10^(x - p + 1)] is within half a unit of its last digit of [n / d];
    at exactly half a unit, [q] is even. *)
Definition rounds_to (p n d : Z) (qx : Z * Z) : Prop :=
  let '(q, x) := qx in
  10 ^ (p - 1) <= q < 10 ^ p /\
  let '(n', d') := scale10 n d (p - 1 - x) in
  2 * Z.abs (n' - q * d') <= d' /\
  (2 * Z.abs (n' - q * d') = d' -> Z.even q = true).

Fixpoint zeros (k : nat) : string :=
  match k with
  | O => EmptyString
  | S k' => String "0"%char (zeros k')
  end.

(** Removes the zeros at the end of a fractional part. *)
Fixpoint strip_zeros (s : string) : string :=
  match s with
  | EmptyString => EmptyString
  | String c rest =>
      match strip_zeros rest with
      | EmptyString =>
          if Ascii.eqb c "0"%char then EmptyString
          else String c EmptyString
      | rest' => String c rest'
      end
  end.

(** An integer part and a fractional part; the point is dropped with an
    empty fraction (no [#] flag). *)
Definition with_point (ipart frac : string) : string :=
  match strip_zeros frac with
  | EmptyString => ipart
  | f => ipart +:+ "." +:+ f
  end.

(** The exponent field of the [e] style: a sign and at least two digits. *)
Definition show_exponent (x : Z) : string :=
  let a := show_int (Z.abs x) in
  (if x <? 0 then "e-" else "e+")
    +:+ (if Z.abs x <? 10 then "0" +:+ a else a).

(** The text of the digits [q] with decimal exponent [x]: style [f] when
    [-4 <= x < precision], style [e] otherwise; trailing zeros removed in
    both. *)
Definition layout (q x : Z) : string :=
  let ds := show_int q in
  if (-4 <=? x) && (x <? precision) then
    if 0 <=? x then
      with_point (substring 0 (Z.to_nat (x + 1)) ds)
                 (substring (Z.to_nat (x + 1)) (String.length ds) ds)
    else
      with_point "0" (zeros (Z.to_nat (- x - 1)) +:+ ds)
  else
    with_point (substring 0 1 ds) (substring 1 (String.length ds) ds)
      +:+ show_exponent x.

(** [%g] on a positive fraction. *)
Definition show_positive (n d : Z) : string :=
  let '(q, x) := significant precision n d in layout q x.

Definition show_sign (s : bool) : string := if s then "-" else "".

Definition show_double (f : double) : string :=
  match f with
  | DZero s => show_sign s +:+ "0"
  | DInf s => show_sign s +:+ "inf"
  | DNaN s => show_sign s +:+ "nan"
  | DFinite s m e =>
      show_sign s +:+ (let '(n, d) := fraction m e in show_positive n d)
  end.

(** The binary64 number nearest to the decimal literal [n / 10^k] is the
    value a floating literal of the source denotes.  [is_nearest] checks a
    candidate [m * 2^e] with a 53-bit mantissa: the error is at most half
    a unit in the last place. *)
Definition is_nearest (n k : Z) (f : double) : bool :=
  match f with
  | DFinite false m e =>
      (2 ^ 52 <=? Z.pos m) && (Z.pos m <? 2 ^ 53) && (e <? 0) &&
      (2 * Z.abs (n * 2 ^ (- e) - Z.pos m * 10 ^ k) <=? 10 ^ k)
  | _ => false
  end.

End Ostream.

Import Ostream.

(** ** Classes as records

    A derived class holds its base-class subobject as a field.  [int] members
    are integers in the range of a 32-bit [int]; nothing in the program does
    arithmetic on them, they are only stored and printed. *)

Record Author := mkAuthor { author_name : string }.

Record Publication := mkPublication {
  title : string;
  year : Z;
  author : Author
}.

Record Book := mkBook {
  book_base : Publication;
  genre : string;
  available : bool
}.

Record Magazine := mkMagazine {
  magazine_base : Publication;
  issue : Z
}.

Record EBook := mkEBook {
  ebook_base : Book;
  fileSize : double
}.

(** A heap object has one of the three concrete dynamic types;
    [Publication] is abstract and [EBook] derives from [Book]. *)
Inductive object :=
| OBook (b : Book)
| OMagazine (m : Magazine)
| OEBook (e : EBook).

(** A [shared_ptr]: the location of the object, or null.  Reference counts
    are not kept: an object lives until its last owner is destroyed, and
    the only place where owners are destroyed while the program still runs
    code of its own is the return of [main], which is modelled there. *)
Definition loc := nat.
Definition ptr := option loc.

Record Reader := mkReader {
  reader_name : string;
  borrowed : list ptr
}.

Record Library := mkLibrary { publications : list ptr }.

(** [User] has the single member [name]; [Admin] adds none. *)
Record User := mkUser { user_name : string }.
Definition Admin := User.

(** ** Program state and the monad of methods *)

Record state := mkState {
  heap : gmap nat object;
  cout : string
}.

Definition M (A : Type) : Type := state -> option (A * state).

#[global] Instance M_ret : MRet M := fun A x s => Some (x, s).
#[global] Instance M_bind : MBind M := fun A B f m s =>
  match m s with
  | Some (x, s') => f x s'
  | None => None
  end.

(** [cout << text] *)
Definition print (text : string) : M unit :=
  fun s => Some (tt, mkState (heap s) (cout s +:+ text)).

(** Reading and writing the object at a location. *)
Definition load (a : loc) : M object :=
  fun s => match heap s !! a with
           | Some o => Some (o, s)
           | None => None
           end.

Definition store (a : loc) (o : object) : M unit :=
  fun s => Some (tt, mkState (<[a := o]> (heap s)) (cout s)).

(** [make_shared<T>(...)]: a new object at a location not in use. *)
Definition make_shared (o : object) : M loc :=
  fun s => let a := fresh (dom (heap s)) in
           Some (a, mkState (<[a := o]> (heap s)) (cout s)).

(** The destruction of the object at a location, when its last owner
    goes. *)
Definition destroy (a : loc) : M unit :=
  fun s => Some (tt, mkState (delete a (heap s)) (cout s)).

Definition fail {A : Type} : M A := fun _ => None.

(** The [Book] subobject seen through a [shared_ptr<Book>]: the object
    itself, or the base of an [EBook].  A [Magazine] is not a [Book]. *)
Definition as_book (o : object) : option Book :=
  match o with
  | OBook b => Some b
  | OEBook e => Some (ebook_base e)
  | OMagazine _ => None
  end.

Definition with_book (o : object) (b : Book) : object :=
  match o with
  | OBook _ => OBook b
  | OEBook e => OEBook (mkEBook b (fileSize e))
  | OMagazine m => OMagazine m
  end.

Definition load_book (a : loc) : M Book :=
  o ← load a;
  match as_book o with
  | Some b => mret b
  | None => fail
  end.

(** A call [p->f()] of a non-const member function of [Book] that returns
    nothing: [f] rewrites the [Book] subobject in place. *)
Definition call_book (a : loc) (f : Book -> Book) : M unit :=
  o ← load a;
  match as_book o with
  | Some b => store a (with_book o (f b))
  | None => fail
  end.

(** A range-based [for] over a vector, the body run for its effect. *)
Fixpoint for_each {A : Type} (l : list A) (body : A -> M unit) : M unit :=
  match l with
  | [] => mret tt
  | x :: l' => body x ;; for_each l' body
  end.

(** ** Member functions *)

Module Author.
Definition getName (this : Author) : string := author_name this.
Definition print (this : Author) : M unit :=
  print ("Author: " +:+ author_name this +:+ nl).
End Author.

Module Publication.
Definition getTitle (this : Publication) : string := title this.
Definition getYear (this : Publication) : Z := year this.
Definition getAuthorName (this : Publication) : string :=
  Author.getName (author this).
End Publication.

Module Book.
(** The constructor: a new book is available. *)
Definition new (t : string) (y : Z) (a : Author) (g : string) : Book :=
  mkBook (mkPublication t y a) g true.

Definition borrow (this : Book) : Book :=
  mkBook (book_base this) (genre this) false.

Definition ret (this : Book) : Book :=
  mkBook (book_base this) (genre this) true.

Definition isAvailable (this : Book) : bool := available this.

Definition getTitle (this : Book) : string :=
  Publication.getTitle (book_base this).

Definition line (this : Book) : string :=
  "Book: " +:+ title (book_base this) +:+ " (" +:+
  show_int (year (book_base this)) +:+ "), " +:+ genre this +:+ " - " +:+
  Author.getName (author (book_base this)) +:+
  (if available this then " [Available]" else " [Taken]").

Definition displayInfo (this : Book) : M unit :=
  print (line this +:+ nl).
End Book.

Module Magazine.
Definition new (t : string) (y : Z) (a : Author) (i : Z) : Magazine :=
  mkMagazine (mkPublication t y a) i.

Definition line (this : Magazine) : string :=
  "Magazine: " +:+ title (magazine_base this) +:+ " #" +:+
  show_int (issue this) +:+ " (" +:+
  show_int (year (magazine_base this)) +:+ ") - " +:+
  Author.getName (author (magazine_base this)).

Definition displayInfo (this : Magazine) : M unit :=
  print (line this +:+ nl).
End Magazine.

Module EBook.
Definition new (t : string) (y : Z) (a : Author) (g : string) (s : double)
  : EBook :=
  mkEBook (Book.new t y a g) s.

Definition line (this : EBook) : string :=
  "E-Book: " +:+ Publication.getTitle (book_base (ebook_base this)) +:+
  " (" +:+ show_int (Publication.getYear (book_base (ebook_base this))) +:+
  "), size: " +:+ show_double (fileSize this) +:+ "MB - " +:+
  Publication.getAuthorName (book_base (ebook_base this)).

Definition displayInfo (this : EBook) : M unit :=
  print (line this +:+ nl).
End EBook.

(** The virtual call [p->displayInfo()]: the override of the dynamic type. *)
Definition displayInfo (o : object) : M unit :=
  match o with
  | OBook b => Book.displayInfo b
  | OMagazine m => Magazine.displayInfo m
  | OEBook e => EBook.displayInfo e
  end.

(** [if (p) p->displayInfo();] as the loops of the program have it. *)
Definition display_if_set (p : ptr) : M unit :=
  match p with
  | Some a => o ← load a; displayInfo o
  | None => mret tt
  end.

Module Reader.
Definition new (n : string) : Reader := mkReader n [].

Definition borrowBook (this : Reader) (b : ptr) : M Reader :=
  match b with
  | None => print ("Invalid book pointer" +:+ nl) ;; mret this
  | Some a =>
      bk ← load_book a;
      if Book.isAvailable bk then
        let this' := mkReader (reader_name this) (borrowed this ++ [b]) in
        call_book a Book.borrow ;;
        bk' ← load_book a;
        print (reader_name this +:+ " borrowed " +:+ dquote +:+
               Book.getTitle bk' +:+ dquote +:+ nl) ;;
        mret this'
      else
        print ("Book not available!" +:+ nl) ;; mret this
  end.

Definition return_if_set (b : ptr) : M unit :=
  match b with
  | Some a => call_book a Book.ret
  | None => mret tt
  end.

Definition returnAll (this : Reader) : M Reader :=
  for_each (borrowed this) return_if_set ;;
  mret (mkReader (reader_name this) []).

Definition listBooks (this : Reader) : M unit :=
  print (reader_name this +:+ " borrowed books:" +:+ nl) ;;
  for_each (borrowed this) display_if_set.
End Reader.

Module Library.
Definition new : Library := mkLibrary [].

Definition addPublication (this : Library) (p : ptr) : Library :=
  mkLibrary (publications this ++ [p]).

Definition showAll (this : Library) : M unit :=
  print (nl +:+ "=== Library Collection ===" +:+ nl) ;;
  for_each (publications this) display_if_set.
End Library.

(** The template [printList], at any vector of smart pointers into the
    publication hierarchy: [displayInfo] is virtual, so the element type
    does not change which override runs. *)
Definition printList (list : list ptr) (title : string) : M unit :=
  print (nl +:+ "=== " +:+ title +:+ " ===" +:+ nl) ;;
  for_each list display_if_set.

Module Admin.
Definition new (n : string) : Admin := mkUser n.

Definition showRole (this : Admin) : M unit :=
  print (user_name this +:+ " is Admin" +:+ nl).

(** The library is taken by reference; the result is the library as the
    call leaves it. *)
Definition removeBook (this : Admin) (lib : Library) : M Library :=
  print (user_name this +:+ " removed a book (simulated)" +:+ nl) ;;
  mret lib.
End Admin.

(** ** The program *)

(** The literal [5.6] as a binary64 number. *)
Definition lit_5_6 : double := DFinite false 6305039478318694 (-50).

(** The local variables of [main] that later statements use. *)
Record locals := mkLocals {
  lib : Library;
  b1 : loc;
  b2 : loc;
  m1 : loc;
  r : Reader
}.

(** [main] up to and including the declaration of the reader. *)
Definition main_setup : M locals :=
  let a1 := mkAuthor "Herbert Schildt" in
  let a2 := mkAuthor "Bjarne Stroustrup" in
  let lib := Library.new in
  b1 ← make_shared (OBook (Book.new "C++ for Beginners" 2020 a1 "Education"));
  b2 ← make_shared
         (OEBook (EBook.new "The C++ Programming Language" 2013 a2
                            "Programming" lit_5_6));
  m1 ← make_shared (OMagazine (Magazine.new "TechWorld" 2025 a1 12));
  let lib := Library.addPublication lib (Some b1) in
  let lib := Library.addPublication lib (Some b2) in
  let lib := Library.addPublication lib (Some m1) in
  let r := Reader.new "Ivan Petrov" in
  mret (mkLocals lib b1 b2 m1 r).

(** The statements after the borrow, to the return.  At the return the
    locals [all], [r], [m1], [b2], [b1] and [lib] are destroyed; they are all
    the owners of the three objects, which are destroyed with them. *)
Definition main_report (v : locals) (r : Reader) : M Z :=
  Reader.listBooks r ;;
  Library.showAll (lib v) ;;
  let admin := Admin.new "Olena" in
  Admin.showRole admin ;;
  let all := [Some (b1 v); Some (b2 v); Some (m1 v)] in
  printList all "All Publications (via template)" ;;
  destroy (b1 v) ;;
  destroy (b2 v) ;;
  destroy (m1 v) ;;
  mret 0.

Definition main : M Z :=
  v ← main_setup;
  r ← Reader.borrowBook (r v) (Some (b1 v));
  main_report v r.

(** The state [main] starts in: nothing allocated, nothing written. *)
Definition initial : state := mkState ∅ "".

(** ** Well-typed pointers *)

(** A [shared_ptr<Book>] is null or points to a live [Book] or [EBook]. *)
Definition book_ptr (h : gmap nat object) (p : ptr) : Prop :=
  match p with
  | None => True
  | Some a => is_Some (h !! a ≫= as_book)
  end.

(** A [shared_ptr<Publication>] is null or points to a live object. *)
Definition pub_ptr (h : gmap nat object) (p : ptr) : Prop :=
  match p with
  | None => True
  | Some a => is_Some (h !! a)
  end.

#[global] Instance book_ptr_dec h p : Decision (book_ptr h p).
Proof. destruct p; simpl; apply _. Defined.

#[global] Instance pub_ptr_dec h p : Decision (pub_ptr h p).
Proof. destruct p; simpl; apply _. Defined.

(** The availability flag of the book at a location, when there is one. *)
Definition availability (h : gmap nat object) (a : loc) : option bool :=
  available <$> (h !! a ≫= as_book).

(** The operations a client can apply to a reader, and their execution in
    program order. *)
Inductive reader_op :=
| BorrowBook (b : ptr)
| ReturnAll
| ListBooks.

Definition apply_op (this : Reader) (o : reader_op) : M Reader :=
  match o with
  | BorrowBook b => Reader.borrowBook this b
  | ReturnAll => Reader.returnAll this
  | ListBooks => Reader.listBooks this ;; mret this
  end.

Fixpoint run (ops : list reader_op) (this : Reader) : M Reader :=
  match ops with
  | [] => mret this
  | o :: ops' => this' ← apply_op this o; run ops' this'
  end.

(** The argument of a borrow is a well-typed [shared_ptr<Book>]; the other
    operations take no argument. *)
Definition op_ok (h : gmap nat object) (o : reader_op) : Prop :=
  match o with
  | BorrowBook b => book_ptr h b
  | _ => True
  end.

#[global] Instance op_ok_dec h o : Decision (op_ok h o).
Proof. destruct o; simpl; apply _. Defined.

(** What holds of the pointers that readers hold: no pointer is listed
    twice, and every entry points to a book that is marked unavailable (so
    no entry is null). *)
Definition held (h : gmap nat object) (l : list ptr) : Prop :=
  NoDup l /\
  forall p, p ∈ l -> exists a, p = Some a /\ availability h a = Some false.

(** The invariant of one reader, between its operations. *)
Definition held_ok (h : gmap nat object) (this : Reader) : Prop :=
  held h (borrowed this).

(** Several readers over one heap.  An operation names the reader it is
    applied to by its position; the entries of all the lists together are
    the pointers held. *)
Definition apply_at (rs : list Reader) (io : nat * reader_op)
  : M (list Reader) :=
  match rs !! io.1 with
  | Some this => this' ← apply_op this io.2; mret (<[io.1 := this']> rs)
  | None => fail
  end.

Fixpoint run_all (ops : list (nat * reader_op)) (rs : list Reader)
  : M (list Reader) :=
  match ops with
  | [] => mret rs
  | io :: ops' => rs' ← apply_at rs io; run_all ops' rs'
  end.

Definition all_held (rs : list Reader) : list ptr := rs ≫= borrowed.

Definition op_at_ok (h : gmap nat object) (n : nat) (io : nat * reader_op)
  : Prop :=
  (io.1 < n)%nat /\ op_ok h io.2.

#[global] Instance op_at_ok_dec h n io : Decision (op_at_ok h n io).
Proof. unfold op_at_ok. apply _. Defined.

(** A sample driver: the same book requested twice, a null request, a
    listing, a return of everything, and two further borrows. *)
Definition sample_heap : gmap nat object :=
  {[ 1%nat := OBook (Book.new "Dune" 1965 (mkAuthor "Frank Herbert") "Fiction");
     2%nat := OEBook (EBook.new "Emma" 1815 (mkAuthor "Jane Austen") "Novel"
                                lit_5_6) ]}.

Definition sample_ops : list reader_op :=
  [ BorrowBook (Some 1%nat); BorrowBook (Some 1%nat); BorrowBook None;
    ListBooks; ReturnAll; BorrowBook (Some 2%nat); BorrowBook (Some 1%nat);
    BorrowBook (Some 2%nat) ].

(** What a display loop writes: the line of each object, in order. *)
Definition object_line (o : object) : string :=
  match o with
  | OBook b => Book.line b
  | OMagazine m => Magazine.line m
  | OEBook e => EBook.line e
  end.

Definition lines (os : list object) : string :=
  foldr (fun o acc => object_line o +:+ nl +:+ acc) "" os.

(** The locations behind the non-null entries of a vector, in its order. *)
Definition non_null (l : list ptr) : list loc := omap id l.

(** Everything [main] writes. *)
Definition main_output : string :=
  "Ivan Petrov borrowed " +:+ dquote +:+ "C++ for Beginners" +:+ dquote
    +:+ nl +:+
  "Ivan Petrov borrowed books:" +:+ nl +:+
  "Book: C++ for Beginners (2020), Education - Herbert Schildt [Taken]"
    +:+ nl +:+
  nl +:+ "=== Library Collection ===" +:+ nl +:+
  "Book: C++ for Beginners (2020), Education - Herbert Schildt [Taken]"
    +:+ nl +:+
  "E-Book: The C++ Programming Language (2013), size: 5.6MB - Bjarne Stroustrup"
    +:+ nl +:+
  "Magazine: TechWorld #12 (2025) - Herbert Schildt" +:+ nl +:+
  "Olena is Admin" +:+ nl +:+
  nl +:+ "=== All Publications (via template) ===" +:+ nl +:+
  "Book: C++ for Beginners (2020), Education - Herbert Schildt [Taken]"
    +:+ nl +:+
  "E-Book: The C++ Programming Language (2013), size: 5.6MB - Bjarne Stroustrup"
    +:+ nl +:+
  "Magazine: TechWorld #12 (2025) - Herbert Schildt" +:+ nl.



(** The interleaved operations of the two-reader sample. *)
Definition sample_ops_at : list (nat * reader_op) :=
  [ (0%nat, BorrowBook (Some 1%nat)); (1%nat, BorrowBook (Some 1%nat));
    (1%nat, BorrowBook (Some 2%nat)); (0%nat, ReturnAll);
    (1%nat, BorrowBook (Some 1%nat)); (0%nat, BorrowBook (Some 2%nat)) ].

(** * Properties *)

(** ** Basic facts about the monad and the heap accessors *)

Lemma append_assoc (s1 s2 s3 : string) :
  (s1 +:+ s2) +:+ s3 = s1 +:+ (s2 +:+ s3).
Proof.
  induction s1 as [|c s1 IH]; [reflexivity|].
  change (String c ((s1 +:+ s2) +:+ s3) = String c (s1 +:+ s2 +:+ s3)).
  by rewrite IH.
Qed.

Lemma append_empty_r (s : string) : s +:+ "" = s.
Proof.
  induction s as [|c s IH]; [reflexivity|].
  change (String c (s +:+ "") = String c s). by rewrite IH.
Qed.

Lemma bind_some {A B} (m : M A) (f : A -> M B) s x s' :
  m s = Some (x, s') -> (m ≫= f) s = f x s'.
Proof. intros H. unfold mbind, M_bind. by rewrite H. Qed.

Lemma bind_none {A B} (m : M A) (f : A -> M B) s :
  m s = None -> (m ≫= f) s = None.
Proof. intros H. unfold mbind, M_bind. by rewrite H. Qed.

Lemma as_book_with_book o b b' :
  as_book o = Some b -> as_book (with_book o b') = Some b'.
Proof. destruct o; simpl; congruence. Qed.

Lemma with_book_same o b : as_book o = Some b -> with_book o b = o.
Proof. destruct o as [|?|[]]; simpl; congruence. Qed.

Lemma with_book_twice o b b' : with_book (with_book o b) b' = with_book o b'.
Proof. by destruct o. Qed.

Lemma load_book_some s a o b :
  heap s !! a = Some o -> as_book o = Some b -> load_book a s = Some (b, s).
Proof.
  intros Ho Hb. unfold load_book, load, mbind, M_bind. by rewrite Ho, Hb.
Qed.

Lemma call_book_some s a o b f :
  heap s !! a = Some o -> as_book o = Some b ->
  call_book a f s
  = Some (tt, mkState (<[a := with_book o (f b)]> (heap s)) (cout s)).
Proof.
  intros Ho Hb. unfold call_book, load, mbind, M_bind. by rewrite Ho, Hb.
Qed.

Lemma book_ptr_lookup h a :
  book_ptr h (Some a) -> exists o b, h !! a = Some o /\ as_book o = Some b.
Proof.
  intros [b Hb]. destruct (h !! a) as [o|] eqn:Ho; [|done]. by exists o, b.
Qed.

Lemma availability_lookup h a o b :
  h !! a = Some o -> as_book o = Some b -> availability h a = Some (available b).
Proof. intros Ho Hb. unfold availability. by rewrite Ho; simpl; rewrite Hb. Qed.

(** Writing the [Book] subobject of a book keeps every pointer well typed. *)
Lemma book_ptr_insert h a o b' p :
  h !! a = Some o -> is_Some (as_book o) ->
  book_ptr h p -> book_ptr (<[a := with_book o b']> h) p.
Proof.
  intros Ho [b Hb]. destruct p as [a'|]; [|done]. simpl.
  destruct (decide (a = a')) as [->|Hne].
  - rewrite lookup_insert_eq. simpl. rewrite (as_book_with_book _ _ _ Hb). eauto.
  - by rewrite lookup_insert_ne.
Qed.

(** ** Book: borrow and ret *)

Lemma ret_borrow_available (b : Book) :
  available b = true -> Book.ret (Book.borrow b) = b.
Proof. destruct b as [p g []]; [reflexivity | discriminate]. Qed.

(** C3: for a book whose availability is true, [borrow()] sets the
    availability to false and a following [ret()] sets it back to true.
    Through a pointer to the book: after [p->borrow()] the flag reads false,
    after [p->ret()] it reads true again, and the whole program state is the
    one before the two calls. *)
Theorem borrow_ret_round_trip (s : state) (a : loc) (o : object) (b : Book) :
  heap s !! a = Some o -> as_book o = Some b -> Book.isAvailable b = true ->
  Book.isAvailable (Book.borrow b) = false /\
  Book.isAvailable (Book.ret (Book.borrow b)) = true /\
  Book.ret (Book.borrow b) = b /\
  exists s1,
    call_book a Book.borrow s = Some (tt, s1) /\
    availability (heap s1) a = Some false /\
    exists s2,
      call_book a Book.ret s1 = Some (tt, s2) /\
      availability (heap s2) a = Some true /\
      s2 = s.
Proof.
  intros Ho Hb Hav.
  pose proof (ret_borrow_available b Hav) as Hrt.
  repeat split; try done.
  eexists. split; [by apply (call_book_some s a o b)|]. simpl.
  pose proof (as_book_with_book o b (Book.borrow b) Hb) as Hb1.
  split.
  { eapply (availability_lookup _ a _ (Book.borrow b));
      [apply lookup_insert_eq | exact Hb1]. }
  eexists. split.
  { eapply call_book_some; simpl; [apply lookup_insert_eq | exact Hb1]. }
  simpl. rewrite insert_insert_eq, with_book_twice, Hrt.
  rewrite (with_book_same o b Hb), (insert_id _ _ _ Ho).
  split; [|by destruct s].
  rewrite (availability_lookup _ a o b Ho Hb). by rewrite <- Hav.
Qed.

Lemma borrow_ret_round_trip_witness :
  let b := Book.new "Dune" 1965 (mkAuthor "Frank Herbert") "Fiction" in
  let s := mkState {[ 4%nat := OBook b ]} "" in
  Book.isAvailable (Book.borrow b) = false /\
  Book.isAvailable (Book.ret (Book.borrow b)) = true /\
  Book.ret (Book.borrow b) = b /\
  exists s1,
    call_book 4%nat Book.borrow s = Some (tt, s1) /\
    availability (heap s1) 4%nat = Some false /\
    exists s2,
      call_book 4%nat Book.ret s1 = Some (tt, s2) /\
      availability (heap s2) 4%nat = Some true /\
      s2 = s.
Proof.
  intros b s.
  apply (borrow_ret_round_trip s 4%nat (OBook b) b); reflexivity.
Defined.

Lemma call_book_idempotent (f : Book -> Book) (a : loc) (s : state) :
  (forall x, f (f x) = f x) ->
  (call_book a f ;; call_book a f) s = call_book a f s.
Proof.
  intros Hf.
  destruct (heap s !! a) as [o|] eqn:Ho.
  - destruct (as_book o) as [b0|] eqn:Hb.
    + rewrite (bind_some _ _ _ _ _ (call_book_some s a o b0 f Ho Hb)).
      rewrite (call_book_some s a o b0 f Ho Hb).
      rewrite (call_book_some _ a (with_book o (f b0)) (f b0) f
                 (lookup_insert_eq _ _ _) (as_book_with_book _ _ _ Hb)).
      simpl. by rewrite insert_insert_eq, with_book_twice, Hf.
    + assert (call_book a f s = None) as Hn.
      { unfold call_book, load, mbind, M_bind. by rewrite Ho, Hb. }
      by rewrite (bind_none _ _ _ Hn), Hn.
  - assert (call_book a f s = None) as Hn.
    { unfold call_book, load, mbind, M_bind. by rewrite Ho. }
    by rewrite (bind_none _ _ _ Hn), Hn.
Qed.

(** A call through a pointer writes nothing and sets the flag as the member
    function does. *)
Lemma call_book_effect (f : Book -> Book) (a : loc) (s s' : state) :
  call_book a f s = Some (tt, s') ->
  cout s' = cout s /\
  exists b, heap s !! a ≫= as_book = Some b /\
            availability (heap s') a = Some (available (f b)).
Proof.
  unfold call_book, load, store, mbind, M_bind.
  destruct (heap s !! a) as [o|] eqn:Ho; [|done]. simpl.
  destruct (as_book o) as [b|] eqn:Hb; [|done].
  intros [= <-]. split; [done|]. exists b. split; [done|]. simpl.
  eapply availability_lookup;
    [apply lookup_insert_eq | by eapply as_book_with_book].
Qed.

(** C8: [borrow()] is idempotent in every availability state, on an
    already-borrowed book it changes nothing, and [ret()] likewise.  The
    same holds for the calls made through a pointer: two calls end in the
    state of one, and a call writes nothing, it only leaves the flag false
    (for [borrow]) or true (for [ret]). *)
Theorem borrow_ret_idempotent (b : Book) (a : loc) (s : state) :
  Book.borrow (Book.borrow b) = Book.borrow b /\
  Book.ret (Book.ret b) = Book.ret b /\
  Book.borrow (mkBook (book_base b) (genre b) false)
    = mkBook (book_base b) (genre b) false /\
  Book.ret (mkBook (book_base b) (genre b) true)
    = mkBook (book_base b) (genre b) true /\
  (call_book a Book.borrow ;; call_book a Book.borrow) s
    = call_book a Book.borrow s /\
  (call_book a Book.ret ;; call_book a Book.ret) s = call_book a Book.ret s /\
  (forall s', call_book a Book.borrow s = Some (tt, s') ->
              cout s' = cout s /\ availability (heap s') a = Some false) /\
  (forall s', call_book a Book.ret s = Some (tt, s') ->
              cout s' = cout s /\ availability (heap s') a = Some true).
Proof.
  do 4 (split; [reflexivity|]).
  split; [by apply call_book_idempotent|].
  split; [by apply call_book_idempotent|].
  split; intros s' Hcall;
    destruct (call_book_effect _ a s s' Hcall) as (Hout & b0 & _ & Hav);
    done.
Qed.

Lemma borrow_ret_idempotent_witness :
  let bk := Book.new "Dune" 1965 (mkAuthor "Frank Herbert") "Fiction" in
  let s := mkState {[ 4%nat := OBook (Book.borrow bk) ]} "log" in
  call_book 4%nat Book.borrow s = Some (tt, s) /\
  cout s = "log" /\ availability (heap s) 4%nat = Some false /\
  call_book 4%nat Book.ret s
    = Some (tt, mkState {[ 4%nat := OBook bk ]} "log") /\
  availability {[ 4%nat := OBook bk ]} 4%nat = Some true.
Proof.
  intros bk s.
  destruct (borrow_ret_idempotent bk 4%nat s)
    as (_ & _ & _ & _ & _ & _ & Hb & Hr).
  assert (Hcb : call_book 4%nat Book.borrow s = Some (tt, s))
    by (vm_compute; reflexivity).
  assert (Hcr : call_book 4%nat Book.ret s
                = Some (tt, mkState {[ 4%nat := OBook bk ]} "log"))
    by (vm_compute; reflexivity).
  destruct (Hb s Hcb) as [Hout Hav]. destruct (Hr _ Hcr) as [_ Hav'].
  repeat split; assumption.
Defined.

(** ** Reader::borrowBook *)

Lemma borrowBook_null (this : Reader) (s : state) :
  Reader.borrowBook this None s
  = Some (this, mkState (heap s) (cout s +:+ "Invalid book pointer" +:+ nl)).
Proof. reflexivity. Qed.

Lemma borrowBook_taken (this : Reader) (s : state) a o b :
  heap s !! a = Some o -> as_book o = Some b -> available b = false ->
  Reader.borrowBook this (Some a) s
  = Some (this, mkState (heap s) (cout s +:+ "Book not available!" +:+ nl)).
Proof.
  intros Ho Hb Hav. unfold Reader.borrowBook.
  rewrite (bind_some _ _ _ _ _ (load_book_some s a o b Ho Hb)).
  unfold Book.isAvailable. by rewrite Hav.
Qed.

Lemma borrowBook_free (this : Reader) (s : state) a o b :
  heap s !! a = Some o -> as_book o = Some b -> available b = true ->
  Reader.borrowBook this (Some a) s
  = Some (mkReader (reader_name this) (borrowed this ++ [Some a]),
          mkState (<[a := with_book o (Book.borrow b)]> (heap s))
            (cout s +:+ reader_name this +:+ " borrowed " +:+ dquote +:+
             title (book_base b) +:+ dquote +:+ nl)).
Proof.
  intros Ho Hb Hav. unfold Reader.borrowBook.
  rewrite (bind_some _ _ _ _ _ (load_book_some s a o b Ho Hb)).
  unfold Book.isAvailable. rewrite Hav.
  rewrite (bind_some _ _ _ _ _ (call_book_some s a o b _ Ho Hb)).
  erewrite bind_some.
  2:{ eapply load_book_some; simpl;
      [apply lookup_insert_eq | by eapply as_book_with_book]. }
  reflexivity.
Qed.

(** C1: [borrowBook] on a null pointer, or on a book that reports
    unavailable, returns the reader unchanged in an unchanged heap and only
    writes its diagnostic; on an available book it appends the pointer to
    the reader's list, marks the book unavailable (no other object changes)
    and writes the confirmation. *)
Theorem borrowBook_spec (this : Reader) (s : state) :
  Reader.borrowBook this None s
    = Some (this, mkState (heap s) (cout s +:+ "Invalid book pointer" +:+ nl))
  /\
  (forall a o b,
      heap s !! a = Some o -> as_book o = Some b -> available b = false ->
      Reader.borrowBook this (Some a) s
      = Some (this, mkState (heap s) (cout s +:+ "Book not available!" +:+ nl)))
  /\
  (forall a o b,
      heap s !! a = Some o -> as_book o = Some b -> available b = true ->
      let h' := <[a := with_book o (Book.borrow b)]> (heap s) in
      Reader.borrowBook this (Some a) s
      = Some (mkReader (reader_name this) (borrowed this ++ [Some a]),
              mkState h'
                (cout s +:+ reader_name this +:+ " borrowed " +:+ dquote +:+
                 title (book_base b) +:+ dquote +:+ nl))
      /\ availability h' a = Some false
      /\ forall a', a' <> a -> h' !! a' = heap s !! a').
Proof.
  split; [apply borrowBook_null|]. split; [apply borrowBook_taken|].
  intros a o b Ho Hb Hav h'. split; [by apply borrowBook_free|]. split.
  - subst h'. eapply (availability_lookup _ a _ (Book.borrow b));
      [apply lookup_insert_eq | by eapply as_book_with_book].
  - intros a' Hne. subst h'. by rewrite lookup_insert_ne.
Qed.

Lemma borrowBook_spec_witness :
  let bk := Book.new "Dune" 1965 (mkAuthor "Frank Herbert") "Fiction" in
  let s := mkState {[ 1%nat := OBook bk; 2%nat := OBook (Book.borrow bk) ]}
                   "" in
  let this := Reader.new "Ann" in
  Reader.borrowBook this None s
    = Some (this, mkState (heap s) (cout s +:+ "Invalid book pointer" +:+ nl))
  /\
  Reader.borrowBook this (Some 2%nat) s
    = Some (this, mkState (heap s) (cout s +:+ "Book not available!" +:+ nl))
  /\
  Reader.borrowBook this (Some 1%nat) s
    = Some (mkReader "Ann" [Some 1%nat],
            mkState (<[1%nat := OBook (Book.borrow bk)]> (heap s))
              ("Ann borrowed " +:+ dquote +:+ "Dune" +:+ dquote +:+ nl)).
Proof.
  intros bk s this.
  destruct (borrowBook_spec this s) as (Hnull & Htaken & Hfree).
  split; [exact Hnull|]. split.
  - apply (Htaken 2%nat (OBook (Book.borrow bk)) (Book.borrow bk));
      reflexivity.
  - apply (Hfree 1%nat (OBook bk) bk); reflexivity.
Defined.

(** ** Admin::removeBook *)

(** C9: [removeBook] returns with the library's collection as it was and
    every heap object as it was; the only effect is the line written.  A
    listing of the library after the call is the listing of the library
    before it, preceded by that line. *)
Theorem removeBook_is_stub (this : Admin) (lib : Library) (s : state) :
  exists s',
    Admin.removeBook this lib s = Some (lib, s') /\
    heap s' = heap s /\
    cout s' = cout s +:+ user_name this +:+ " removed a book (simulated)"
                     +:+ nl /\
    (lib' ← Admin.removeBook this lib; Library.showAll lib') s
    = (print (user_name this +:+ " removed a book (simulated)" +:+ nl) ;;
       Library.showAll lib) s.
Proof.
  eexists. split; [reflexivity|]. simpl. repeat split.
Qed.

(** ** Stream formatting of numbers *)

(** The text of an [int] reads back as the number. *)
Lemma show_int_read (z : Z) :
  option_map Z.of_int (NilZero.int_of_string (show_int z)) = Some z.
Proof.
  unfold show_int. rewrite NilZero.isi.
  - simpl. f_equal. apply DecimalZ.of_to.
  - destruct z; simpl; try discriminate.
    intros [= H]. by apply (DecimalPos.Unsigned.to_uint_nonnil p).
  - destruct z; simpl; try discriminate.
    intros [= H]. by apply (DecimalPos.Unsigned.to_uint_nonnil p).
Qed.

Lemma count_digits_spec (fuel : nat) (n : Z) :
  1 <= n < 2 ^ (Z.of_nat fuel + 1) ->
  1 <= count_digits fuel n /\
  10 ^ (count_digits fuel n - 1) <= n < 10 ^ count_digits fuel n.
Proof.
  revert n. induction fuel as [|fuel IH]; intros n Hn.
  - simpl in *. change (2 ^ (0 + 1)) with 2 in Hn. lia.
  - cbn [count_digits]. destruct (Z.ltb_spec n 10) as [Hlt|Hge].
    + simpl. lia.
    + assert (Hq : 1 <= n / 10 < 2 ^ (Z.of_nat fuel + 1)).
      { replace (Z.of_nat (S fuel) + 1) with (Z.succ (Z.of_nat fuel + 1))
          in Hn by lia.
        rewrite Z.pow_succ_r in Hn by lia.
        split; [apply Z.div_le_lower_bound; lia|].
        apply Z.div_lt_upper_bound; lia. }
      destruct (IH _ Hq) as (Hk & Hlo & Hhi).
      set (k := count_digits fuel (n / 10)) in *.
      replace (1 + k - 1) with (Z.succ (k - 1)) by lia.
      replace (1 + k) with (Z.succ k) by lia.
      rewrite !Z.pow_succ_r by lia.
      pose proof (Z.div_mod n 10 ltac:(lia)) as Hdm.
      pose proof (Z.mod_pos_bound n 10 ltac:(lia)) as Hm.
      lia.
Qed.

Lemma ndigits_spec (n : Z) :
  1 <= n ->
  1 <= ndigits n /\ 10 ^ (ndigits n - 1) <= n < 10 ^ ndigits n.
Proof.
  intros Hn. apply count_digits_spec. split; [exact Hn|].
  rewrite Z2Nat.id by apply Z.log2_nonneg.
  pose proof (Z.log2_spec n ltac:(lia)) as [_ H].
  replace (Z.log2 n + 1) with (Z.succ (Z.log2 n)) by lia. exact H.
Qed.

Lemma round_half_even_spec (n d : Z) :
  0 < d ->
  2 * Z.abs (n - round_half_even n d * d) <= d /\
  (2 * Z.abs (n - round_half_even n d * d) = d ->
   Z.even (round_half_even n d) = true).
Proof.
  intros Hd. unfold round_half_even.
  pose proof (Z.div_mod n d ltac:(lia)) as Hdm.
  pose proof (Z.mod_pos_bound n d Hd) as Hm.
  destruct (Z.compare_spec (2 * (n mod d)) d) as [He|Hl|Hg].
  - destruct (Z.even (n / d)) eqn:Hev.
    + split; [nia | intros _; exact Hev].
    + split; [nia|]. intros _.
      rewrite Z.even_add, Hev. reflexivity.
  - split; [nia|nia].
  - split; [nia|nia].
Qed.

Lemma pow10_pos (k : Z) : 0 <= k -> 0 < 10 ^ k.
Proof. intros Hk. apply Z.pow_pos_nonneg; lia. Qed.

(** The same fraction at two scales: the values differ by the power of ten
    between the scales. *)
Lemma scale10_shift (n d k j : Z) :
  0 < d -> 0 <= j ->
  0 < (scale10 n d k).2 /\ 0 < (scale10 n d (k + j)).2 /\
  (scale10 n d (k + j)).1 * (scale10 n d k).2
  = 10 ^ j * (scale10 n d k).1 * (scale10 n d (k + j)).2.
Proof.
  intros Hd Hj. unfold scale10.
  destruct (Z.leb_spec 0 k) as [Hk|Hk], (Z.leb_spec 0 (k + j)) as [Hkj|Hkj];
    simpl; try lia.
  - split; [lia|]. split; [lia|]. rewrite Z.pow_add_r by lia. ring.
  - pose proof (pow10_pos (- k) ltac:(lia)) as Hp.
    split; [nia|]. split; [lia|].
    replace j with ((k + j) + (- k)) at 2 by lia.
    rewrite (Z.pow_add_r 10 (k + j) (- k)) by lia. ring.
  - pose proof (pow10_pos (- k) ltac:(lia)) as Hp.
    pose proof (pow10_pos (- (k + j)) ltac:(lia)) as Hp'.
    split; [nia|]. split; [nia|].
    replace (- k) with (j + - (k + j)) by lia.
    rewrite (Z.pow_add_r 10 j (- (k + j))) by lia. ring.
Qed.

Lemma decimal_exponent_spec (n d : Z) :
  0 < n -> 0 < d ->
  (scale10 n d (- decimal_exponent n d)).2
  <= (scale10 n d (- decimal_exponent n d)).1
  < 10 * (scale10 n d (- decimal_exponent n d)).2.
Proof.
  intros Hn Hd. unfold decimal_exponent.
  destruct (Z.leb_spec d n) as [Hle|Hlt].
  - assert (Hc : 1 <= n / d) by (apply Z.div_le_lower_bound; lia).
    destruct (ndigits_spec _ Hc) as (Hk & Hlo & Hhi).
    set (k := ndigits (n / d)) in *.
    pose proof (Z.div_mod n d ltac:(lia)) as Hdm.
    pose proof (Z.mod_pos_bound n d Hd) as Hm.
    replace k with (Z.succ (k - 1)) in Hhi by lia.
    rewrite Z.pow_succ_r in Hhi by lia.
    pose proof (pow10_pos (k - 1) ltac:(lia)) as Hp.
    unfold scale10.
    destruct (Z.leb_spec 0 (- (k - 1))) as [H0|H0]; cbn [fst snd].
    + replace (- (k - 1)) with 0 by lia.
      replace (k - 1) with 0 in * by lia.
      change (10 ^ 0) with 1 in *. nia.
    + replace (- - (k - 1)) with (k - 1) by lia. nia.
  - assert (Hc : 1 <= (d - 1) / n) by (apply Z.div_le_lower_bound; lia).
    destruct (ndigits_spec _ Hc) as (Hk & Hlo & Hhi).
    pose proof (Z.div_mod (d - 1) n ltac:(lia)) as Hdm.
    pose proof (Z.mod_pos_bound (d - 1) n Hn) as Hm.
    remember (ndigits ((d - 1) / n)) as j eqn:Ej. clear Ej.
    assert (Hj : exists i, 0 <= i /\ j = Z.succ i) by (exists (j - 1); lia).
    destruct Hj as (i & Hi & ->).
    replace (Z.succ i - 1) with i in Hlo by lia.
    rewrite Z.opp_involutive.
    rewrite Z.pow_succ_r in Hhi by lia.
    pose proof (pow10_pos i Hi) as Hp.
    unfold scale10. destruct (Z.leb_spec 0 (Z.succ i)) as [H0|H0]; [|lia].
    cbn [fst snd]. rewrite Z.pow_succ_r by lia. nia.
Qed.

Lemma significant_spec (p n d : Z) :
  1 <= p -> 0 < n -> 0 < d -> rounds_to p n d (significant p n d).
Proof.
  intros Hp Hn Hd. unfold significant.
  pose proof (decimal_exponent_spec n d Hn Hd) as Hdec.
  set (x := decimal_exponent n d) in *.
  pose proof (scale10_shift n d (- x) (p - 1) Hd ltac:(lia))
    as (Hd1 & Hd' & Hsh).
  replace (- x + (p - 1)) with (p - 1 - x) in * by lia.
  destruct (scale10 n d (- x)) as [n1 d1].
  destruct (scale10 n d (p - 1 - x)) as [n' d'] eqn:E.
  cbn [fst snd] in *.
  pose proof (pow10_pos (p - 1) ltac:(lia)) as HP.
  assert (Hpow : 10 ^ p = 10 * 10 ^ (p - 1)).
  { replace p with (Z.succ (p - 1)) at 1 by lia.
    apply Z.pow_succ_r. lia. }
  set (P := 10 ^ (p - 1)) in *.
  assert (Hlo : P * d' <= n') by nia.
  assert (Hhi : n' < 10 * P * d') by nia.
  destruct (round_half_even_spec n' d' Hd') as [Hr Hev].
  set (q := round_half_even n' d') in *.
  assert (Hq : P <= q <= 10 * P) by nia.
  rewrite Hpow.
  destruct (Z.eqb_spec q (10 * P)) as [Heq|Hne].
  - unfold rounds_to. split; [lia|].
    pose proof (scale10_shift n d (p - 1 - (x + 1)) 1 Hd ltac:(lia))
      as (Hd2 & _ & Hsh2).
    replace (p - 1 - (x + 1) + 1) with (p - 1 - x) in Hsh2 by lia.
    rewrite E in Hsh2.
    destruct (scale10 n d (p - 1 - (x + 1))) as [n2 d2].
    cbn [fst snd] in *. change (10 ^ 1) with 10 in Hsh2.
    assert (Herr : 0 <= P * d2 - n2 /\ 20 * (P * d2 - n2) <= d2) by nia.
    split; [lia|]. intros Htie. lia.
  - unfold rounds_to. rewrite E. split; [lia|]. split; [exact Hr | exact Hev].
Qed.

(** ** EBook::displayInfo *)

Lemma show_finite (sg : bool) (m : positive) (e : Z) :
  exists n d q x,
    fraction m e = (n, d) /\ 0 < n /\ 0 < d /\
    rounds_to precision n d (q, x) /\
    show_double (DFinite sg m e)
    = (if sg then "-" else "") +:+ layout q x.
Proof.
  destruct (fraction m e) as [n d] eqn:Ef.
  assert (Hpos : 0 < n /\ 0 < d).
  { unfold fraction in Ef. destruct (Z.leb_spec 0 e) as [He|He];
      injection Ef as <- <-.
    - pose proof (Z.pow_pos_nonneg 2 e ltac:(lia) He). lia.
    - pose proof (Z.pow_pos_nonneg 2 (- e) ltac:(lia) ltac:(lia)). lia. }
  destruct Hpos as [Hn Hd].
  pose proof (significant_spec precision n d ltac:(done) Hn Hd) as Hsig.
  destruct (significant precision n d) as [q x] eqn:Es.
  exists n, d, q, x. do 4 (split; [done|]).
  unfold show_double, show_positive. rewrite Ef, Es. by destruct sg.
Qed.

(** C6: [displayInfo] of an e-book writes the line
    [E-Book: {title} ({year}), size: {fileSize}MB - {author}] and an end of
    line, whether called directly or through a base pointer, and the text
    does not depend on the availability flag.  The year is written as the
    decimal text that reads back as the number.  The size is written as the
    stream writes a [double]: a zero, an infinity or a NaN as [0], [inf] or
    [nan] after a minus sign when the sign bit is set; a finite value
    [m * 2^e] as its sign and the layout of the six digits [q] and exponent
    [x] that round it correctly, ties to even; the layout is fixed notation
    for exponents from -4 to 5 and scientific notation otherwise, without
    trailing zeros.  For the e-book of the sample data, whose size is the
    binary64 number nearest to 5.6, the line is
    [E-Book: The C++ Programming Language (2013), size: 5.6MB - Bjarne
    Stroustrup]. *)
Theorem ebook_displayInfo_format :
  (forall (e : EBook) (s : state),
      EBook.displayInfo e s
      = Some (tt,
              mkState (heap s)
                (cout s +:+
                 ("E-Book: " +:+ title (book_base (ebook_base e)) +:+ " (" +:+
                  show_int (year (book_base (ebook_base e))) +:+ "), size: " +:+
                  show_double (fileSize e) +:+ "MB - " +:+
                  author_name (author (book_base (ebook_base e)))) +:+ nl))
      /\ displayInfo (OEBook e) s = EBook.displayInfo e s)
  /\
  (forall (p : Publication) (g : string) (f : double) (av av' : bool),
      EBook.displayInfo (mkEBook (mkBook p g av) f)
      = EBook.displayInfo (mkEBook (mkBook p g av') f))
  /\
  (forall z : Z,
      option_map Z.of_int (NilZero.int_of_string (show_int z)) = Some z)
  /\
  (forall sg : bool,
      show_double (DZero sg) = (if sg then "-0" else "0") /\
      show_double (DInf sg) = (if sg then "-inf" else "inf") /\
      show_double (DNaN sg) = (if sg then "-nan" else "nan"))
  /\
  (forall (sg : bool) (m : positive) (e : Z),
      exists n d q x,
        fraction m e = (n, d) /\ 0 < n /\ 0 < d /\
        (0 <= e -> n = Z.pos m * 2 ^ e /\ d = 1) /\
        (e < 0 -> n = Z.pos m /\ d = 2 ^ (- e)) /\
        rounds_to 6 n d (q, x) /\
        show_double (DFinite sg m e)
        = (if sg then "-" else "") +:+ layout q x)
  /\
  (fun qx : Z * Z => layout qx.1 qx.2) <$>
    [ (560000, 0); (100000, 0); (100000, 5); (100000, 6); (123457, 8);
      (500000, -1); (100000, -4); (100000, -5); (953674, -7);
      (179769, 308); (120563, 3); (100098, 0); (494066, -324);
      (123000, 2); (100000, 10) ]
  = [ "5.6"; "1"; "100000"; "1e+06"; "1.23457e+08";
      "0.5"; "0.0001"; "1e-05"; "9.53674e-07";
      "1.79769e+308"; "1205.63"; "1.00098"; "4.94066e-324";
      "123"; "1e+10" ]
  /\
  show_double <$>
    [ lit_5_6; DFinite true 6305039478318694 (-50); DFinite false 1 0;
      DFinite false 1234565 (-1); DFinite false 1234575 (-1);
      DFinite false 1999999 (-1); DFinite true 1 (-20);
      DFinite false 7378697629483821 (-66);
      DFinite false 5902958103587057 (-69) ]
  = [ "5.6"; "-5.6"; "1"; "617282"; "617288"; "1e+06"; "-9.53674e-07";
      "0.0001"; "1e-05" ]
  /\
  is_nearest 56 1 lit_5_6 = true
  /\
  EBook.line (EBook.new "The C++ Programming Language" 2013
                (mkAuthor "Bjarne Stroustrup") "Programming" lit_5_6)
  = "E-Book: The C++ Programming Language (2013), size: 5.6MB - Bjarne Stroustrup".
Proof.
  split; [intros e s; split; reflexivity|].
  split; [reflexivity|].
  split; [apply show_int_read|].
  split; [intros []; repeat split|].
  split.
  { intros sg m e.
    destruct (show_finite sg m e) as (n & d & q & x & Ef & Hn & Hd & Hr & Hs).
    exists n, d, q, x. do 3 (split; [done|]).
    split; [|split; [|split; [exact Hr | exact Hs]]].
    - intros He. unfold fraction in Ef.
      destruct (Z.leb_spec 0 e); [by injection Ef as <- <- | lia].
    - intros He. unfold fraction in Ef.
      destruct (Z.leb_spec 0 e); [lia | by injection Ef as <- <-]. }
  split; [vm_compute; reflexivity|].
  split; [vm_compute; reflexivity|].
  split; vm_compute; reflexivity.
Qed.

Lemma ebook_displayInfo_format_witness :
  0 <= 3 /\ -50 < 0 /\
  (exists n d q x,
      n = 5 * 2 ^ 3 /\ d = 1 /\ rounds_to 6 n d (q, x) /\
      show_double (DFinite true 5 3) = "-" +:+ layout q x) /\
  (exists n d q x,
      n = 6305039478318694 /\ d = 2 ^ 50 /\ rounds_to 6 n d (q, x) /\
      show_double lit_5_6 = "" +:+ layout q x).
Proof.
  assert (H3 : 0 <= 3) by lia. assert (H50 : -50 < 0) by lia.
  destruct ebook_displayInfo_format as (_ & _ & _ & _ & Hfin & _).
  split; [exact H3|]. split; [exact H50|]. split.
  - destruct (Hfin true 5%positive 3)
      as (n & d & q & x & _ & _ & _ & Hge & _ & Hr & Hs).
    destruct (Hge H3) as [-> ->]. by exists (5 * 2 ^ 3), 1, q, x.
  - destruct (Hfin false 6305039478318694%positive (-50))
      as (n & d & q & x & _ & _ & _ & _ & Hlt & Hr & Hs).
    destruct (Hlt H50) as [-> ->].
    by exists 6305039478318694, (2 ^ 50), q, x.
Defined.

(** ** The scenario of main *)

(** C2: in [main], the book [b1] is constructed as
    [Book("C++ for Beginners", 2020, "Herbert Schildt", "Education")] and
    reports available; the reader "Ivan Petrov" then borrows it, which writes
    the line [Ivan Petrov borrowed "C++ for Beginners"] and leaves the book
    unavailable; [listBooks] on that reader then writes its header and
    exactly one book line,
    [Book: C++ for Beginners (2020), Education - Herbert Schildt [Taken]].
    The three steps are the first statements [main] runs. *)
Theorem main_scenario :
  exists (v : locals) (s0 : state) (r1 : Reader) (s1 s2 : state),
    main_setup initial = Some (v, s0) /\
    heap s0 !! b1 v
      = Some (OBook (Book.new "C++ for Beginners" 2020
                       (mkAuthor "Herbert Schildt") "Education")) /\
    availability (heap s0) (b1 v) = Some true /\
    r v = Reader.new "Ivan Petrov" /\
    Reader.borrowBook (r v) (Some (b1 v)) s0 = Some (r1, s1) /\
    cout s1 = cout s0 +:+ "Ivan Petrov borrowed " +:+ dquote +:+
              "C++ for Beginners" +:+ dquote +:+ nl /\
    availability (heap s1) (b1 v) = Some false /\
    borrowed r1 = [Some (b1 v)] /\
    Reader.listBooks r1 s1 = Some (tt, s2) /\
    cout s2 = cout s1 +:+ "Ivan Petrov borrowed books:" +:+ nl +:+
              "Book: C++ for Beginners (2020), Education - Herbert Schildt [Taken]"
              +:+ nl /\
    heap s2 = heap s1 /\
    main initial = main_report v r1 s1.
Proof.
  do 5 eexists.
  do 11 (split; [vm_compute; reflexivity|]).
  vm_compute; reflexivity.
Qed.

(** ** The display loops: Library::showAll and printList *)

Lemma displayInfo_line (o : object) (s : state) :
  displayInfo o s
  = Some (tt, mkState (heap s) (cout s +:+ object_line o +:+ nl)).
Proof. by destruct o. Qed.

(** A null entry costs nothing: the loop with its test is the loop over the
    non-null entries, each displayed through its virtual [displayInfo]. *)
Lemma for_each_display_non_null (l : list ptr) (s : state) :
  for_each l display_if_set s
  = for_each (non_null l) (fun a => o ← load a; displayInfo o) s.
Proof.
  revert s. induction l as [|[a|] l IH]; intros s; [done| |].
  - simpl. unfold mbind at 1 3, M_bind.
    destruct ((load a ≫= displayInfo) s) as [[[] s1]|]; [apply IH | done].
  - apply IH.
Qed.

Lemma for_each_display (l : list ptr) (s : state) :
  Forall (pub_ptr (heap s)) l ->
  exists os,
    Forall2 (fun a o => heap s !! a = Some o) (non_null l) os /\
    for_each l display_if_set s
    = Some (tt, mkState (heap s) (cout s +:+ lines os)).
Proof.
  revert s. induction l as [|[a|] l IH]; intros s Hok.
  - exists []. split; [constructor|].
    simpl. rewrite append_empty_r. by destruct s.
  - apply Forall_cons in Hok as [[o Ho] Hok].
    destruct (IH (mkState (heap s) (cout s +:+ object_line o +:+ nl)) Hok)
      as (os & Hos & Hrun).
    exists (o :: os). split; [by constructor|].
    simpl. erewrite bind_some.
    2:{ erewrite bind_some; [apply displayInfo_line|].
        unfold load. by rewrite Ho. }
    rewrite Hrun. simpl. by rewrite !append_assoc.
  - apply Forall_cons in Hok as [_ Hok].
    destruct (IH s Hok) as (os & Hos & Hrun). by exists os.
Qed.

(** A library holds its publications in the order they were added. *)
Lemma addPublication_order (l : list ptr) :
  foldl Library.addPublication Library.new l = mkLibrary l.
Proof.
  assert (H : forall k lib, foldl Library.addPublication lib k
                            = mkLibrary (publications lib ++ k)).
  { induction k as [|p k IH]; intros lib; simpl.
    - rewrite app_nil_r. by destruct lib.
    - rewrite IH. simpl. by rewrite <- (assoc_L (++)). }
  apply H.
Qed.

(** C5: on any collection of publication pointers, [printList] and
    [Library::showAll] write their header and then the line of every non-null
    item, in the order of the sequence; a null entry is skipped, the call
    always returns, and nothing on the heap changes.  The library is the one
    obtained by adding the items of [l] one after the other.  The objects
    [os] displayed are those behind the non-null entries, in order, and each
    is displayed by its own [displayInfo]. *)
Theorem display_loops_in_order (l : list ptr) (t : string) (s : state) :
  Forall (pub_ptr (heap s)) l ->
  exists os,
    Forall2 (fun a o => heap s !! a = Some o) (non_null l) os /\
    printList l t s
    = Some (tt, mkState (heap s)
                  ((cout s +:+ nl +:+ "=== " +:+ t +:+ " ===" +:+ nl)
                     +:+ lines os)) /\
    Library.showAll (foldl Library.addPublication Library.new l) s
    = Some (tt, mkState (heap s)
                  ((cout s +:+ nl +:+ "=== Library Collection ===" +:+ nl)
                     +:+ lines os)) /\
    for_each l display_if_set s
    = for_each (non_null l) (fun a => o ← load a; displayInfo o) s /\
    (forall o s0, o ∈ os ->
       displayInfo o s0
       = Some (tt, mkState (heap s0) (cout s0 +:+ object_line o +:+ nl))).
Proof.
  intros Hok.
  assert (Hhdr : forall hdr,
            exists os,
              Forall2 (fun a o => heap s !! a = Some o) (non_null l) os /\
              (print hdr ;; for_each l display_if_set) s
              = Some (tt, mkState (heap s) ((cout s +:+ hdr) +:+ lines os))).
  { intros hdr.
    destruct (for_each_display l (mkState (heap s) (cout s +:+ hdr)) Hok)
      as (os & Hos & Hrun).
    exists os. split; [exact Hos|]. exact Hrun. }
  destruct (Hhdr (nl +:+ "=== " +:+ t +:+ " ===" +:+ nl)) as (os & Hos & Hp).
  destruct (Hhdr (nl +:+ "=== Library Collection ===" +:+ nl))
    as (os' & Hos' & Hs).
  assert (os' = os) as ->.
  { clear -Hos Hos'. revert os os' Hos Hos'.
    induction (non_null l) as [|a k IH]; intros os os' H1 H2.
    - apply Forall2_nil_inv_l in H1, H2. congruence.
    - apply Forall2_cons_inv_l in H1 as (o & r & Ho & Hr & ->).
      apply Forall2_cons_inv_l in H2 as (o' & r' & Ho' & Hr' & ->).
      f_equal; [congruence | by apply IH]. }
  exists os. split; [exact Hos|]. split; [exact Hp|].
  split; [rewrite addPublication_order; exact Hs|].
  split; [apply for_each_display_non_null|].
  intros o s0 _. apply displayInfo_line.
Qed.

Lemma display_loops_in_order_witness :
  let bk := Book.new "Dune" 1965 (mkAuthor "Frank Herbert") "Fiction" in
  let mg := Magazine.new "Byte" 1981 (mkAuthor "Carl Helmers") 8 in
  let s := mkState {[ 1%nat := OBook bk; 2%nat := OMagazine mg ]} "" in
  let l := [Some 2%nat; None; Some 1%nat] in
  Forall (pub_ptr (heap s)) l /\
  exists os,
    Forall2 (fun a o => heap s !! a = Some o) (non_null l) os /\
    printList l "Shelf" s
    = Some (tt, mkState (heap s)
                  ((cout s +:+ nl +:+ "=== " +:+ "Shelf" +:+ " ===" +:+ nl)
                     +:+ lines os)) /\
    Library.showAll (foldl Library.addPublication Library.new l) s
    = Some (tt, mkState (heap s)
                  ((cout s +:+ nl +:+ "=== Library Collection ===" +:+ nl)
                     +:+ lines os)) /\
    for_each l display_if_set s
    = for_each (non_null l) (fun a => o ← load a; displayInfo o) s /\
    (forall o s0, o ∈ os ->
       displayInfo o s0
       = Some (tt, mkState (heap s0) (cout s0 +:+ object_line o +:+ nl))).
Proof.
  intros bk mg s l.
  assert (Hok : Forall (pub_ptr (heap s)) l).
  { repeat constructor; vm_compute; eauto. }
  split; [exact Hok|].
  exact (display_loops_in_order l "Shelf" s Hok).
Defined.

(** ** Reader::returnAll *)

(** The loop of [returnAll]: it returns, writes nothing, and rewrites
    exactly the books listed, each to its returned state. *)
Lemma for_each_return (l : list ptr) (s : state) :
  Forall (book_ptr (heap s)) l ->
  exists h',
    for_each l Reader.return_if_set s = Some (tt, mkState h' (cout s)) /\
    (forall p, book_ptr (heap s) p -> book_ptr h' p) /\
    (forall a o b, Some a ∈ l -> heap s !! a = Some o -> as_book o = Some b ->
                   h' !! a = Some (with_book o (Book.ret b))) /\
    (forall a, Some a ∉ l -> h' !! a = heap s !! a).
Proof.
  revert s. induction l as [|[a0|] l IH]; intros s Hok.
  - exists (heap s). split; [by destruct s|].
    split; [done|]. split; [|done].
    intros a o b Hin. by apply elem_of_nil in Hin.
  - apply Forall_cons in Hok as [Ha0 Hok].
    destruct (book_ptr_lookup _ _ Ha0) as (o0 & b0 & Ho0 & Hb0).
    set (s1 := mkState (<[a0 := with_book o0 (Book.ret b0)]> (heap s))
                       (cout s)).
    assert (Hkeep : forall p, book_ptr (heap s) p -> book_ptr (heap s1) p).
    { intros p. apply book_ptr_insert; eauto. }
    destruct (IH s1) as (h' & Hrun & Hty & Hin & Hout).
    { eapply Forall_impl; [exact Hok | exact Hkeep]. }
    exists h'. split; [|split; [|split]].
    + simpl.
      rewrite (bind_some _ _ _ _ _ (call_book_some s a0 o0 b0 _ Ho0 Hb0)).
      exact Hrun.
    + intros p Hp. by apply Hty, Hkeep.
    + intros a o b Ha Ho Hb.
      destruct (decide (a = a0)) as [->|Hne].
      * assert (o = o0) as -> by congruence.
        assert (b = b0) as -> by congruence.
        destruct (decide (Some a0 ∈ l)) as [Hl|Hl].
        -- rewrite (Hin a0 (with_book o0 (Book.ret b0)) (Book.ret b0) Hl).
           ++ by rewrite with_book_twice.
           ++ apply lookup_insert_eq.
           ++ by eapply as_book_with_book.
        -- rewrite (Hout a0 Hl). apply lookup_insert_eq.
      * apply Hin; [|by simpl; rewrite lookup_insert_ne|done].
        apply elem_of_cons in Ha as [Ha|Ha]; [congruence | done].
    + intros a Ha. apply not_elem_of_cons in Ha as [Hne Ha].
      rewrite (Hout a Ha). simpl. apply lookup_insert_ne. congruence.
  - apply Forall_cons in Hok as [_ Hok].
    destruct (IH s Hok) as (h' & Hrun & Hty & Hin & Hout).
    exists h'. split; [exact Hrun|]. split; [exact Hty|]. split.
    + intros a o b Ha. apply Hin.
      apply elem_of_cons in Ha as [Ha|Ha]; [discriminate | done].
    + intros a Ha. apply Hout. by apply not_elem_of_cons in Ha as [_ Ha].
Qed.

(** Whatever the first call does, a second [returnAll] repeats nothing: it
    finds the list empty. *)
Lemma returnAll_twice (this : Reader) (s : state) :
  (this' ← Reader.returnAll this; Reader.returnAll this') s
  = Reader.returnAll this s.
Proof.
  unfold Reader.returnAll, mbind, M_bind.
  destruct (for_each (borrowed this) Reader.return_if_set s) as [[[] s']|];
    reflexivity.
Qed.

(** C4: [returnAll] returns, for a list of any size, with the reader's
    list empty and every book that was in it available (each differs from
    its earlier state in the availability flag only); books not in the list
    and the output are untouched; and calling it twice ends in the same
    state of reader, heap and output as calling it once. *)
Theorem returnAll_spec (this : Reader) (s : state) :
  Forall (book_ptr (heap s)) (borrowed this) ->
  exists this' s',
    Reader.returnAll this s = Some (this', s') /\
    borrowed this' = [] /\
    reader_name this' = reader_name this /\
    cout s' = cout s /\
    (forall a, Some a ∈ borrowed this ->
               availability (heap s') a = Some true) /\
    (forall a o b, Some a ∈ borrowed this ->
                   heap s !! a = Some o -> as_book o = Some b ->
                   heap s' !! a = Some (with_book o (Book.ret b))) /\
    (forall a, Some a ∉ borrowed this -> heap s' !! a = heap s !! a) /\
    Reader.returnAll this' s' = Some (this', s') /\
    (r1 ← Reader.returnAll this; Reader.returnAll r1) s
    = Reader.returnAll this s.
Proof.
  intros Hok.
  destruct (for_each_return _ s Hok) as (h' & Hrun & Hty & Hin & Hout).
  exists (mkReader (reader_name this) []), (mkState h' (cout s)).
  split.
  { unfold Reader.returnAll. by rewrite (bind_some _ _ _ _ _ Hrun). }
  do 3 (split; [reflexivity|]).
  split.
  { intros a Ha. simpl.
    pose proof (proj1 (Forall_forall _ _) Hok _ Ha) as Hp.
    destruct (book_ptr_lookup _ _ Hp) as (o & b & Ho & Hb).
    eapply (availability_lookup _ a _ (Book.ret b)).
    - by apply (Hin a o b).
    - by eapply as_book_with_book. }
  split; [exact Hin|]. split; [exact Hout|].
  split; [reflexivity | apply returnAll_twice].
Qed.

Lemma returnAll_spec_witness :
  let bk := Book.borrow
              (Book.new "Dune" 1965 (mkAuthor "Frank Herbert") "Fiction") in
  let eb := mkEBook bk lit_5_6 in
  let s := mkState {[ 1%nat := OBook bk; 2%nat := OEBook eb ]} "" in
  let this := mkReader "Ann" [Some 2%nat; Some 1%nat] in
  Forall (book_ptr (heap s)) (borrowed this) /\
  Reader.returnAll this s
  = Some (mkReader "Ann" [],
          mkState {[ 1%nat := OBook (Book.ret bk);
                     2%nat := OEBook (mkEBook (Book.ret bk) lit_5_6) ]} "") /\
  exists this' s',
    Reader.returnAll this s = Some (this', s') /\
    borrowed this' = [] /\
    reader_name this' = reader_name this /\
    cout s' = cout s /\
    (forall a, Some a ∈ borrowed this ->
               availability (heap s') a = Some true) /\
    (forall a o b, Some a ∈ borrowed this ->
                   heap s !! a = Some o -> as_book o = Some b ->
                   heap s' !! a = Some (with_book o (Book.ret b))) /\
    (forall a, Some a ∉ borrowed this -> heap s' !! a = heap s !! a) /\
    Reader.returnAll this' s' = Some (this', s') /\
    (r1 ← Reader.returnAll this; Reader.returnAll r1) s
    = Reader.returnAll this s.
Proof.
  intros bk eb s this.
  assert (Hok : Forall (book_ptr (heap s)) (borrowed this)).
  { repeat constructor; vm_compute; eauto. }
  split; [exact Hok|]. split; [vm_compute; reflexivity|].
  exact (returnAll_spec this s Hok).
Defined.

(** ** Invariants of a reader's list *)

Lemma availability_book_ptr h a v :
  availability h a = Some v -> book_ptr h (Some a).
Proof.
  unfold availability. simpl. destruct (h !! a ≫= as_book); [eauto | done].
Qed.

Lemma held_book_ptrs h l l' :
  held h l -> l' ⊆ l -> Forall (book_ptr h) l'.
Proof.
  intros [_ Hheld] Hsub. apply Forall_forall. intros p Hp.
  destruct (Hheld p (Hsub p Hp)) as (a & -> & Hav).
  by eapply availability_book_ptr.
Qed.

Lemma book_ptr_pub_ptr h p : book_ptr h p -> pub_ptr h p.
Proof.
  destruct p as [a|]; [|done]. simpl. intros [b Hb].
  destruct (h !! a); [eauto | done].
Qed.

Lemma held_nil h : held h [].
Proof. split; [constructor|]. intros p Hp. by apply elem_of_nil in Hp. Qed.

(** One operation of a reader, with [X] and [Y] the entries that other
    readers hold: the call returns when its argument is well typed, keeps
    the invariant of all the entries together, and keeps every pointer well
    typed. *)
Lemma apply_op_invariant (X Y : list ptr) (this : Reader) (o : reader_op)
    (s : state) :
  held (heap s) (X ++ borrowed this ++ Y) -> op_ok (heap s) o ->
  exists this' s',
    apply_op this o s = Some (this', s') /\
    held (heap s') (X ++ borrowed this' ++ Y) /\
    (forall p, book_ptr (heap s) p -> book_ptr (heap s') p).
Proof.
  intros Hinv Hop.
  assert (Hmine : borrowed this ⊆ X ++ borrowed this ++ Y).
  { intros p Hp. apply elem_of_app. right. apply elem_of_app. by left. }
  destruct o as [[a|]| |]; simpl in *.
  - (* borrowBook on a book *)
    destruct (book_ptr_lookup _ _ Hop) as (o & b & Ho & Hb).
    destruct (available b) eqn:Hav.
    + do 2 eexists. split; [exact (borrowBook_free this s a o b Ho Hb Hav)|].
      simpl. destruct Hinv as [Hnd Hheld].
      assert (Hfresh : Some a ∉ X ++ borrowed this ++ Y).
      { intros Hin. destruct (Hheld _ Hin) as (a' & [= <-] & Hf).
        rewrite (availability_lookup _ _ _ _ Ho Hb), Hav in Hf. discriminate. }
      assert (Hperm : X ++ (borrowed this ++ [Some a]) ++ Y
                      ≡ₚ Some a :: X ++ borrowed this ++ Y).
      { rewrite <- (assoc_L (++) (borrowed this)). simpl.
        rewrite (assoc_L (++) X). rewrite <- Permutation_middle.
        by rewrite <- (assoc_L (++) X). }
      split; [split|].
      * rewrite Hperm. by apply NoDup_cons.
      * intros p Hp. rewrite Hperm in Hp.
        apply elem_of_cons in Hp as [->|Hp].
        -- exists a. split; [done|].
           eapply (availability_lookup _ a _ (Book.borrow b));
             [apply lookup_insert_eq | by eapply as_book_with_book].
        -- destruct (Hheld p Hp) as (a' & -> & Hf). exists a'. split; [done|].
           unfold availability. rewrite lookup_insert_ne; [exact Hf|].
           intros ->. contradiction.
      * intros p. apply book_ptr_insert; eauto.
    + do 2 eexists. split; [exact (borrowBook_taken this s a o b Ho Hb Hav)|].
      by simpl.
  - (* borrowBook on null *)
    do 2 eexists. split; [reflexivity|]. by simpl.
  - (* returnAll *)
    destruct (for_each_return _ s (held_book_ptrs _ _ _ Hinv Hmine))
      as (h' & Hrun & Hty & _ & Hframe).
    do 2 eexists. split.
    { unfold Reader.returnAll. rewrite (bind_some _ _ _ _ _ Hrun).
      reflexivity. }
    simpl. split; [|exact Hty].
    destruct Hinv as [Hnd Hheld].
    apply NoDup_app in Hnd as (HX & HXBY & [HB [HBY HY]]%NoDup_app).
    split.
    * apply NoDup_app. split; [exact HX|]. split; [|exact HY].
      intros p Hp Hq. apply (HXBY p Hp). apply elem_of_app. by right.
    * intros p Hp.
      assert (p ∈ X ++ borrowed this ++ Y /\ p ∉ borrowed this) as [Hin Hnot].
      { apply elem_of_app in Hp as [Hp|Hp].
        - split; [apply elem_of_app; by left|].
          intros Hq. apply (HXBY p Hp). apply elem_of_app. by left.
        - split; [apply elem_of_app; right; apply elem_of_app; by right|].
          intros Hq. by apply (HBY p Hq). }
      destruct (Hheld p Hin) as (a & -> & Hf). exists a. split; [done|].
      unfold availability. by rewrite (Hframe a Hnot).
  - (* listBooks *)
    destruct (for_each_display (borrowed this)
                (mkState (heap s)
                   (cout s +:+ reader_name this +:+ " borrowed books:" +:+ nl)))
      as (os & _ & Hrun).
    { simpl. eapply Forall_impl;
        [exact (held_book_ptrs _ _ _ Hinv Hmine) | apply book_ptr_pub_ptr]. }
    do 2 eexists. split.
    { unfold Reader.listBooks.
      erewrite bind_some; [reflexivity|].
      erewrite bind_some; [exact Hrun | reflexivity]. }
    by simpl.
Qed.

Lemma op_ok_mono h h' o :
  (forall p, book_ptr h p -> book_ptr h' p) -> op_ok h o -> op_ok h' o.
Proof. intros Hty. destruct o; simpl; auto. Qed.

(** Any sequence of operations with well-typed arguments runs to the end
    and keeps the invariant. *)
Lemma run_invariant (ops : list reader_op) (this : Reader) (s : state) :
  held_ok (heap s) this -> Forall (op_ok (heap s)) ops ->
  exists this' s', run ops this s = Some (this', s') /\ held_ok (heap s') this'.
Proof.
  revert this s. induction ops as [|o ops IH]; intros this s Hinv Hops.
  - by exists this, s.
  - apply Forall_cons in Hops as [Ho Hops].
    destruct (apply_op_invariant [] [] this o s)
      as (this1 & s1 & Hstep & Hinv1 & Hty); [|exact Ho|].
    { simpl. by rewrite app_nil_r. }
    simpl in Hinv1. rewrite app_nil_r in Hinv1.
    destruct (IH this1 s1 Hinv1) as (this' & s' & Hrun & Hinv').
    { eapply Forall_impl; [exact Hops|]. intros o'. by apply op_ok_mono. }
    exists this', s'. split; [|exact Hinv'].
    simpl. by rewrite (bind_some _ _ _ _ _ Hstep).
Qed.

(** C7: a reader constructed with an empty list and then driven by any
    sequence of [borrowBook], [returnAll] and [listBooks], on any heap and
    with any book pointers as arguments, runs every call to its end and
    lists no book twice. *)
Theorem reader_list_no_duplicates
    (n : string) (h : gmap nat object) (out : string) (ops : list reader_op) :
  Forall (op_ok h) ops ->
  exists this' s',
    run ops (Reader.new n) (mkState h out) = Some (this', s') /\
    NoDup (borrowed this').
Proof.
  intros Hops.
  destruct (run_invariant ops (Reader.new n) (mkState h out))
    as (this' & s' & Hrun & Hnd & _); [apply held_nil | exact Hops |].
  by exists this', s'.
Qed.

(** C10: under the same conditions, every entry of the reader's list is a
    non-null pointer to a book whose availability is false. *)
Theorem reader_list_books_unavailable
    (n : string) (h : gmap nat object) (out : string) (ops : list reader_op) :
  Forall (op_ok h) ops ->
  exists this' s',
    run ops (Reader.new n) (mkState h out) = Some (this', s') /\
    forall p, p ∈ borrowed this' ->
              exists a, p = Some a /\ availability (heap s') a = Some false.
Proof.
  intros Hops.
  destruct (run_invariant ops (Reader.new n) (mkState h out))
    as (this' & s' & Hrun & _ & Hheld); [apply held_nil | exact Hops |].
  by exists this', s'.
Qed.

Lemma sample_ops_ok : Forall (op_ok sample_heap) sample_ops.
Proof. repeat constructor; vm_compute; eauto. Defined.

Example sample_run_list :
  borrowed ∘ fst <$> run sample_ops (Reader.new "Ann") (mkState sample_heap "")
  = Some [Some 2%nat; Some 1%nat].
Proof. vm_compute. reflexivity. Qed.

Lemma reader_list_no_duplicates_witness :
  Forall (op_ok sample_heap) sample_ops /\
  exists this' s',
    run sample_ops (Reader.new "Ann") (mkState sample_heap "")
    = Some (this', s') /\
    NoDup (borrowed this').
Proof.
  split; [exact sample_ops_ok|].
  exact (reader_list_no_duplicates "Ann" sample_heap "" sample_ops
           sample_ops_ok).
Defined.

Lemma reader_list_books_unavailable_witness :
  Forall (op_ok sample_heap) sample_ops /\
  exists this' s',
    run sample_ops (Reader.new "Ann") (mkState sample_heap "")
    = Some (this', s') /\
    forall p, p ∈ borrowed this' ->
              exists a, p = Some a /\ availability (heap s') a = Some false.
Proof.
  split; [exact sample_ops_ok|].
  exact (reader_list_books_unavailable "Ann" sample_heap "" sample_ops
           sample_ops_ok).
Defined.

(** ** Several readers over one heap

    The same invariant for any number of readers sharing the books: the
    operations of one reader do not disturb what the others hold, and no
    book is ever in two lists. *)

Lemma all_held_split (pre post : list Reader) (this : Reader) :
  all_held (pre ++ this :: post)
  = all_held pre ++ borrowed this ++ all_held post.
Proof. unfold all_held. by rewrite bind_app, bind_cons. Qed.

Lemma all_held_new (names : list string) : all_held (Reader.new <$> names) = [].
Proof. induction names as [|n names IH]; [done|]. exact IH. Qed.

Lemma apply_at_invariant (rs : list Reader) (io : nat * reader_op) (s : state) :
  held (heap s) (all_held rs) -> op_at_ok (heap s) (length rs) io ->
  exists rs' s',
    apply_at rs io s = Some (rs', s') /\
    held (heap s') (all_held rs') /\
    length rs' = length rs /\
    (forall p, book_ptr (heap s) p -> book_ptr (heap s') p).
Proof.
  destruct io as [i o]. intros Hinv [Hi Ho]. simpl in *.
  destruct (lookup_lt_is_Some_2 rs i Hi) as [this Hthis].
  pose proof (take_drop_middle rs i this Hthis) as Hsplit.
  rewrite <- Hsplit, all_held_split in Hinv.
  destruct (apply_op_invariant _ _ this o s Hinv Ho)
    as (this' & s' & Hstep & Hinv' & Hty).
  exists (<[i := this']> rs), s'. split; [|split; [|split]].
  - unfold apply_at. simpl. rewrite Hthis.
    by rewrite (bind_some _ _ _ _ _ Hstep).
  - by rewrite (insert_take_drop rs i this' Hi), all_held_split.
  - apply length_insert.
  - exact Hty.
Qed.

(** Any interleaving of operations with well-typed arguments on existing
    readers runs to the end and keeps the invariant of all the entries. *)
Lemma run_all_invariant (ops : list (nat * reader_op)) (rs : list Reader)
    (s : state) :
  held (heap s) (all_held rs) ->
  Forall (op_at_ok (heap s) (length rs)) ops ->
  exists rs' s', run_all ops rs s = Some (rs', s') /\
                 held (heap s') (all_held rs').
Proof.
  revert rs s. induction ops as [|io ops IH]; intros rs s Hinv Hops.
  - by exists rs, s.
  - apply Forall_cons in Hops as [Hio Hops].
    destruct (apply_at_invariant rs io s Hinv Hio)
      as (rs1 & s1 & Hstep & Hinv1 & Hlen & Hty).
    destruct (IH rs1 s1 Hinv1) as (rs' & s' & Hrun & Hinv').
    { eapply Forall_impl; [exact Hops|]. intros io' [Hlt Hok].
      split; [by rewrite Hlen | by eapply op_ok_mono]. }
    exists rs', s'. split; [|exact Hinv'].
    simpl. by rewrite (bind_some _ _ _ _ _ Hstep).
Qed.

(** X1: readers constructed empty and driven by any interleaving of their
    operations: every call returns, no pointer is held twice, by one reader
    or by two, and every book held is unavailable. *)
Theorem readers_invariant (names : list string) (h : gmap nat object)
    (out : string) (ops : list (nat * reader_op)) :
  Forall (op_at_ok h (length names)) ops ->
  exists rs' s',
    run_all ops (Reader.new <$> names) (mkState h out) = Some (rs', s') /\
    held (heap s') (all_held rs').
Proof.
  intros Hops. apply run_all_invariant; simpl.
  - rewrite all_held_new. apply held_nil.
  - by rewrite length_fmap.
Qed.

Lemma sample_ops_at_ok : Forall (op_at_ok sample_heap 2) sample_ops_at.
Proof. repeat constructor; vm_compute; eauto. Defined.

Lemma readers_invariant_witness :
  Forall (op_at_ok sample_heap (length ["Ann"; "Bob"])) sample_ops_at /\
  exists rs' s',
    run_all sample_ops_at (Reader.new <$> ["Ann"; "Bob"])
            (mkState sample_heap "") = Some (rs', s') /\
    held (heap s') (all_held rs').
Proof.
  split; [exact sample_ops_at_ok|].
  exact (readers_invariant ["Ann"; "Bob"] sample_heap "" sample_ops_at
           sample_ops_at_ok).
Defined.

(** X2: a book that some reader holds is lent to nobody else.  After any
    interleaving of operations of readers constructed empty, a call of
    [borrowBook] for a held book, by any reader, writes
    [Book not available!] and changes neither that reader nor the heap. *)
Theorem held_book_is_refused (names : list string) (h : gmap nat object)
    (out : string) (ops : list (nat * reader_op)) :
  Forall (op_at_ok h (length names)) ops ->
  exists rs' s',
    run_all ops (Reader.new <$> names) (mkState h out) = Some (rs', s') /\
    forall (a : loc) (this : Reader),
      Some a ∈ all_held rs' ->
      Reader.borrowBook this (Some a) s'
      = Some (this,
              mkState (heap s') (cout s' +:+ "Book not available!" +:+ nl)).
Proof.
  intros Hops.
  destruct (run_all_invariant ops (Reader.new <$> names) (mkState h out))
    as (rs' & s' & Hrun & _ & Hheld).
  { simpl. rewrite all_held_new. apply held_nil. }
  { simpl. by rewrite length_fmap. }
  exists rs', s'. split; [exact Hrun|]. intros a this Ha.
  destruct (Hheld _ Ha) as (a' & [= <-] & Hav).
  destruct (book_ptr_lookup _ _ (availability_book_ptr _ _ _ Hav))
    as (o & b & Ho & Hb).
  apply (borrowBook_taken this s' a o b Ho Hb).
  rewrite (availability_lookup _ _ _ _ Ho Hb) in Hav. congruence.
Qed.

Lemma held_book_is_refused_witness :
  Forall (op_at_ok sample_heap (length ["Ann"; "Bob"])) sample_ops_at /\
  exists rs' s',
    run_all sample_ops_at (Reader.new <$> ["Ann"; "Bob"])
            (mkState sample_heap "") = Some (rs', s') /\
    forall (a : loc) (this : Reader),
      Some a ∈ all_held rs' ->
      Reader.borrowBook this (Some a) s'
      = Some (this,
              mkState (heap s') (cout s' +:+ "Book not available!" +:+ nl)).
Proof.
  split; [exact sample_ops_at_ok|].
  exact (held_book_is_refused ["Ann"; "Bob"] sample_heap "" sample_ops_at
           sample_ops_at_ok).
Defined.

Example two_readers_run :
  (fun x : list Reader * state => map borrowed x.1) <$>
    run_all sample_ops_at (Reader.new <$> ["Ann"; "Bob"])
            (mkState sample_heap "")
  = Some [ []; [Some 2%nat; Some 1%nat] ].
Proof. vm_compute. reflexivity. Qed.

(** The readers above start empty, as the constructor leaves them.  A
    reader that starts as a copy of another's list shares its books: when
    the copy returns them, the first reader still lists a book that is
    available again. *)
Example copied_list_is_outside_the_invariant :
  let taken := OBook (Book.borrow (Book.new "Dune" 1965
                                     (mkAuthor "Frank Herbert") "Fiction")) in
  (fun x : list Reader * state =>
     (map borrowed x.1, availability (heap x.2) 1%nat)) <$>
    run_all [ (1%nat, ReturnAll) ]
            [ mkReader "Ann" [Some 1%nat]; mkReader "Ann" [Some 1%nat] ]
            (mkState {[ 1%nat := taken ]} "")
  = Some ([ [Some 1%nat]; [] ], Some true).
Proof. vm_compute. reflexivity. Qed.

(** The invariant is one of the [Reader] operations only.  [Book::ret] is
    public: a direct call on a held book makes it available again, and the
    reader can then borrow it a second time. *)
Example direct_ret_is_outside_the_invariant :
  borrowed ∘ fst <$>
    (this ← Reader.borrowBook (Reader.new "Ann") (Some 1%nat);
     call_book 1%nat Book.ret ;;
     Reader.borrowBook this (Some 1%nat)) (mkState sample_heap "")
  = Some [Some 1%nat; Some 1%nat].
Proof. vm_compute. reflexivity. Qed.

(** ** What the reader operations leave alone *)






(** ** A session that ends with returnAll *)








(** ** Reader::listBooks *)

(** A display loop over a vector without null entries, the objects behind
    its pointers given. *)
Lemma for_each_display_objects (h : gmap nat object) (l : list ptr)
    (os : list object) :
  Forall2 (fun p o => exists a, p = Some a /\ h !! a = Some o) l os ->
  forall out,
    for_each l display_if_set (mkState h out)
    = Some (tt, mkState h (out +:+ lines os)).
Proof.
  induction 1 as [|p o l os (a & -> & Ho) _ IH]; intros out.
  - simpl. by rewrite append_empty_r.
  - simpl. erewrite bind_some.
    2:{ erewrite bind_some; [apply displayInfo_line|].
        unfold load. simpl. by rewrite Ho. }
    simpl. rewrite IH. by rewrite !append_assoc.
Qed.

(** The objects behind the entries of a list that satisfies the invariant:
    one book per entry, each marked unavailable. *)
Lemma held_objects (h : gmap nat object) (l : list ptr) :
  (forall p, p ∈ l -> exists a, p = Some a /\ availability h a = Some false) ->
  exists os,
    Forall2 (fun p o => exists a, p = Some a /\ h !! a = Some o) l os /\
    Forall (fun o => exists b, as_book o = Some b /\ available b = false) os.
Proof.
  induction l as [|p l IH]; intros Hheld.
  - exists []. split; constructor.
  - destruct IH as (os & Hos & Hav).
    { intros q Hq. apply Hheld. by apply list_elem_of_further. }
    destruct (Hheld p (list_elem_of_here _ _)) as (a & -> & Ha).
    destruct (book_ptr_lookup _ _ (availability_book_ptr _ _ _ Ha))
      as (o & b & Ho & Hb).
    exists (o :: os). split; [constructor; eauto|].
    constructor; [|exact Hav]. exists b. split; [done|].
    rewrite (availability_lookup _ _ _ _ Ho Hb) in Ha. congruence.
Qed.

Lemma apply_op_name this o s this' s' :
  apply_op this o s = Some (this', s') ->
  reader_name this' = reader_name this.
Proof.
  destruct o as [[a|]| |]; simpl;
    unfold Reader.borrowBook, Reader.returnAll, Reader.listBooks,
           mbind, M_bind, mret, M_ret, print;
    intros H; repeat case_match; by simplify_eq.
Qed.

Lemma run_name ops this s this' s' :
  run ops this s = Some (this', s') -> reader_name this' = reader_name this.
Proof.
  revert this s. induction ops as [|o ops IH]; intros this s; simpl.
  - by intros [= -> _].
  - unfold mbind, M_bind.
    destruct (apply_op this o s) as [[this1 s1]|] eqn:Hstep; [|done].
    intros Hrun. rewrite (IH _ _ Hrun). by eapply apply_op_name.
Qed.

(** X5: after any sequence of operations on a reader constructed empty,
    [listBooks] writes its header and then exactly one line per entry of the
    reader's list, in the order of the list, which is the order of the
    borrows; no entry is skipped, each line is that of a book currently
    marked unavailable, and the heap is not changed. *)
Theorem listBooks_lists_every_held_book
    (n : string) (h : gmap nat object) (out : string) (ops : list reader_op) :
  Forall (op_ok h) ops ->
  exists this' s' os,
    run ops (Reader.new n) (mkState h out) = Some (this', s') /\
    Forall2 (fun p o => exists a, p = Some a /\ heap s' !! a = Some o)
            (borrowed this') os /\
    Forall (fun o => exists b, as_book o = Some b /\ available b = false) os /\
    Reader.listBooks this' s'
    = Some (tt, mkState (heap s')
                  ((cout s' +:+ n +:+ " borrowed books:" +:+ nl)
                     +:+ lines os)).
Proof.
  intros Hops.
  destruct (run_invariant ops (Reader.new n) (mkState h out))
    as (this' & s' & Hrun & _ & Hheld); [apply held_nil | exact Hops |].
  pose proof (run_name _ _ _ _ _ Hrun) as Hname. simpl in Hname.
  destruct (held_objects _ _ Hheld) as (os & Hos & Hav).
  exists this', s', os. do 3 (split; [done|]).
  unfold Reader.listBooks. erewrite bind_some; [|reflexivity].
  simpl. rewrite Hname. simpl.
  apply (for_each_display_objects (heap s') _ _ Hos).
Qed.

Lemma listBooks_lists_every_held_book_witness :
  Forall (op_ok sample_heap) sample_ops /\
  exists this' s' os,
    run sample_ops (Reader.new "Ann") (mkState sample_heap "")
    = Some (this', s') /\
    Forall2 (fun p o => exists a, p = Some a /\ heap s' !! a = Some o)
            (borrowed this') os /\
    Forall (fun o => exists b, as_book o = Some b /\ available b = false) os /\
    Reader.listBooks this' s'
    = Some (tt, mkState (heap s')
                  ((cout s' +:+ "Ann" +:+ " borrowed books:" +:+ nl)
                     +:+ lines os)).
Proof.
  split; [exact sample_ops_ok|].
  exact (listBooks_lists_every_held_book "Ann" sample_heap "" sample_ops
           sample_ops_ok).
Defined.

(** ** Library::addPublication *)

Lemma bind_unit_r (m : M unit) (s : state) : (m ;; mret tt) s = m s.
Proof. unfold mbind, M_bind. by destruct (m s) as [[[] s']|]. Qed.

Lemma bind_assoc {A B C} (m : M A) (f : A -> M B) (g : B -> M C) s :
  ((m ≫= f) ≫= g) s = (m ≫= fun x => f x ≫= g) s.
Proof. unfold mbind, M_bind. by destruct (m s) as [[x s']|]. Qed.

(** A loop over a vector with one more element at its end runs the loop
    over the vector and then the body on that element. *)
Lemma for_each_snoc {A} (l : list A) (x : A) (body : A -> M unit) s :
  for_each (l ++ [x]) body s = (for_each l body ;; body x) s.
Proof.
  revert s. induction l as [|y l IH]; intros s; simpl.
  - by rewrite bind_unit_r.
  - unfold mbind, M_bind in *.
    destruct (body y s) as [[[] s1]|]; [apply IH | done].
Qed.

(** X6: [addPublication] puts the publication at the end of the listing
    and checks nothing.  [showAll] after [addPublication(p)] is [showAll]
    before it followed by the display of [p]; adding a null pointer changes
    no listing; adding a pointer a second time lists its object a second
    time. *)
Theorem addPublication_then_showAll (lib : Library) (p : ptr) (s : state) :
  Library.showAll (Library.addPublication lib p) s
  = (Library.showAll lib ;; display_if_set p) s /\
  Library.showAll (Library.addPublication lib None) s = Library.showAll lib s /\
  Library.showAll (Library.addPublication (Library.addPublication lib p) p) s
  = (Library.showAll lib ;; display_if_set p ;; display_if_set p) s.
Proof.
  assert (Hadd : forall lib p s,
            Library.showAll (Library.addPublication lib p) s
            = (Library.showAll lib ;; display_if_set p) s).
  { clear. intros lib p s. unfold Library.showAll, Library.addPublication.
    simpl. rewrite bind_assoc.
    rewrite !(bind_some _ _ s tt _ eq_refl).
    apply for_each_snoc. }
  split; [apply Hadd|]. split.
  - rewrite Hadd. apply bind_unit_r.
  - rewrite Hadd, <- bind_assoc. unfold mbind at 1 3, M_bind.
    by rewrite Hadd.
Qed.

(** ** Construction followed by a borrow *)

Lemma make_shared_fresh (o : object) (s : state) :
  make_shared o s
  = Some (fresh (dom (heap s)),
          mkState (<[fresh (dom (heap s)) := o]> (heap s)) (cout s)) /\
  heap s !! fresh (dom (heap s)) = None.
Proof.
  split; [reflexivity|]. apply not_elem_of_dom, is_fresh.
Qed.

(** X7: a book fresh from its constructor can be borrowed by any reader.
    For an object [o] made by [make_shared] whose [Book] part is
    [Book(t, y, a, g)], that is a [Book] or an [EBook] of any size, the
    borrow that follows succeeds: the pointer is new, it is appended to the
    reader's list, the confirmation with the title is written, the new
    book is unavailable, and no object that existed is touched. *)
Theorem new_book_can_be_borrowed (o : object) (t : string) (y : Z)
    (a : Author) (g : string) (this : Reader) (s : state) :
  as_book o = Some (Book.new t y a g) ->
  exists b s',
    (b ← make_shared o;
     this' ← Reader.borrowBook this (Some b);
     mret (b, this')) s
    = Some ((b, mkReader (reader_name this) (borrowed this ++ [Some b])), s') /\
    heap s !! b = None /\
    cout s' = cout s +:+ reader_name this +:+ " borrowed " +:+ dquote +:+ t
                     +:+ dquote +:+ nl /\
    availability (heap s') b = Some false /\
    (forall a' o', heap s !! a' = Some o' -> heap s' !! a' = Some o').
Proof.
  intros Hb. destruct (make_shared_fresh o s) as [Hnew Hfresh].
  set (b := fresh (dom (heap s))) in *.
  set (s1 := mkState (<[b := o]> (heap s)) (cout s)) in *.
  assert (Ho : heap s1 !! b = Some o) by apply lookup_insert_eq.
  pose proof (borrowBook_free this s1 b o _ Ho Hb eq_refl) as Hborrow.
  eexists b, _. split.
  { rewrite (bind_some _ _ _ _ _ Hnew), (bind_some _ _ _ _ _ Hborrow).
    reflexivity. }
  simpl. split; [done|]. split; [done|]. split.
  { eapply (availability_lookup _ b _ (Book.borrow (Book.new t y a g)));
      [apply lookup_insert_eq | by eapply as_book_with_book]. }
  assert (Hkeep : forall a' o', heap s !! a' = Some o' ->
            <[b := with_book o (Book.borrow (Book.new t y a g))]>
              (<[b := o]> (heap s)) !! a' = Some o').
  { intros a' o' Ha'. rewrite !lookup_insert_ne; [done| |]; intros <-;
      unfold loc in *; congruence. }
  exact Hkeep.
Qed.

Lemma new_book_can_be_borrowed_witness :
  let o := OEBook (EBook.new "Emma" 1815 (mkAuthor "Jane Austen") "Novel"
                             lit_5_6) in
  let this := Reader.new "Ann" in
  let s := mkState sample_heap "" in
  as_book o = Some (Book.new "Emma" 1815 (mkAuthor "Jane Austen") "Novel") /\
  exists b s',
    (b ← make_shared o;
     this' ← Reader.borrowBook this (Some b);
     mret (b, this')) s
    = Some ((b, mkReader (reader_name this) (borrowed this ++ [Some b])), s') /\
    heap s !! b = None /\
    cout s' = cout s +:+ reader_name this +:+ " borrowed " +:+ dquote
                     +:+ "Emma" +:+ dquote +:+ nl /\
    availability (heap s') b = Some false /\
    (forall a' o', heap s !! a' = Some o' -> heap s' !! a' = Some o').
Proof.
  intros o this s. split; [reflexivity|].
  apply (new_book_can_be_borrowed o "Emma" 1815 (mkAuthor "Jane Austen")
           "Novel" this s).
  reflexivity.
Defined.

(** ** main from any state *)

Lemma display_loop_objects (h : gmap nat object) (l : list ptr)
    (os : list object) (hdr out : string) :
  Forall2 (fun p o => exists a, p = Some a /\ h !! a = Some o) l os ->
  (print hdr ;; for_each l display_if_set) (mkState h out)
  = Some (tt, mkState h ((out +:+ hdr) +:+ lines os)).
Proof.
  intros Hos. erewrite bind_some; [|reflexivity].
  apply (for_each_display_objects h l os Hos).
Qed.

(** X8: [main] returns 0 and writes the same text whatever was allocated
    or written before it starts, and it leaves the heap exactly as it found
    it: the three objects it creates, at locations that were free, are
    destroyed with its locals when it returns, and no object that existed is
    changed.  Up to the return the lent book is still marked unavailable:
    nothing in [main] gives it back. *)
Theorem main_from_any_state (s : state) :
  exists (v : locals) (s0 : state) (r1 : Reader) (s1 s' : state),
    main_setup s = Some (v, s0) /\
    heap s !! b1 v = None /\ heap s !! b2 v = None /\ heap s !! m1 v = None /\
    NoDup [b1 v; b2 v; m1 v] /\
    Reader.borrowBook (r v) (Some (b1 v)) s0 = Some (r1, s1) /\
    main s = main_report v r1 s1 /\
    main s = Some (0, s') /\
    cout s' = cout s +:+ main_output /\
    heap s' = heap s.
Proof.
  set (B := Book.new "C++ for Beginners" 2020 (mkAuthor "Herbert Schildt")
                     "Education").
  set (E := EBook.new "The C++ Programming Language" 2013
                      (mkAuthor "Bjarne Stroustrup") "Programming" lit_5_6).
  set (G := Magazine.new "TechWorld" 2025 (mkAuthor "Herbert Schildt") 12).
  destruct (make_shared_fresh (OBook B) s) as [_ Hf1].
  set (a1 := fresh (dom (heap s))) in *.
  set (h1 := <[a1 := OBook B]> (heap s)).
  destruct (make_shared_fresh (OEBook E) (mkState h1 (cout s))) as [_ Hf2].
  simpl in Hf2. set (a2 := fresh (dom h1)) in *.
  set (h2 := <[a2 := OEBook E]> h1).
  destruct (make_shared_fresh (OMagazine G) (mkState h2 (cout s)))
    as [_ Hf3].
  simpl in Hf3. set (a3 := fresh (dom h2)) in *.
  set (h3 := <[a3 := OMagazine G]> h2).
  pose proof (proj1 (lookup_insert_None _ _ _ _) Hf2) as [Hs2 H12].
  pose proof (proj1 (lookup_insert_None _ _ _ _) Hf3) as [Hs3' H23].
  pose proof (proj1 (lookup_insert_None _ _ _ _) Hs3') as [Hs3 H13].
  set (v := mkLocals (mkLibrary [Some a1; Some a2; Some a3]) a1 a2 a3
                     (Reader.new "Ivan Petrov")).
  assert (Hsetup : main_setup s = Some (v, mkState h3 (cout s)))
    by reflexivity.
  assert (Hb1 : h3 !! a1 = Some (OBook B)).
  { subst h3 h2 h1. rewrite !lookup_insert_ne by congruence.
    apply lookup_insert_eq. }
  pose proof (borrowBook_free (Reader.new "Ivan Petrov")
                (mkState h3 (cout s)) a1 (OBook B) B Hb1 eq_refl eq_refl)
    as Hborrow.
  simpl in Hborrow.
  set (h4 := <[a1 := OBook (Book.borrow B)]> h3) in *.
  assert (H41 : h4 !! a1 = Some (OBook (Book.borrow B)))
    by apply lookup_insert_eq.
  assert (H42 : h4 !! a2 = Some (OEBook E)).
  { subst h4 h3 h2. rewrite !lookup_insert_ne by congruence.
    apply lookup_insert_eq. }
  assert (H43 : h4 !! a3 = Some (OMagazine G)).
  { subst h4 h3. rewrite lookup_insert_ne by congruence.
    apply lookup_insert_eq. }
  assert (Hone : Forall2 (fun p o => exists a, p = Some a /\ h4 !! a = Some o)
                   [Some a1] [OBook (Book.borrow B)])
    by (repeat constructor; eauto).
  assert (Hall : Forall2 (fun p o => exists a, p = Some a /\ h4 !! a = Some o)
                   [Some a1; Some a2; Some a3]
                   [OBook (Book.borrow B); OEBook E; OMagazine G])
    by (repeat constructor; eauto).
  assert (Hmain : main s = main_report v
                    (mkReader "Ivan Petrov" [Some a1])
                    (mkState h4 (cout s +:+ "Ivan Petrov" +:+ " borrowed " +:+
                                 dquote +:+ "C++ for Beginners" +:+ dquote
                                 +:+ nl))).
  { unfold main. rewrite (bind_some _ _ _ _ _ Hsetup).
    subst v. simpl. by rewrite (bind_some _ _ _ _ _ Hborrow). }
  eexists v, _, _, _, _.
  split; [exact Hsetup|]. do 3 (split; [assumption|]).
  split.
  { repeat constructor; rewrite ?elem_of_cons, ?elem_of_nil; simpl; tauto. }
  split; [exact Hborrow|]. split; [exact Hmain|]. split.
  { rewrite Hmain.
    unfold main_report, Reader.listBooks, Library.showAll, printList. simpl.
    rewrite (bind_some _ _ _ _ _ (display_loop_objects _ _ _ _ _ Hone)).
    rewrite (bind_some _ _ _ _ _ (display_loop_objects _ _ _ _ _ Hall)).
    erewrite bind_some; [|reflexivity]. simpl.
    rewrite (bind_some _ _ _ _ _ (display_loop_objects _ _ _ _ _ Hall)).
    reflexivity. }
  simpl. split.
  { rewrite !append_assoc. f_equal. }
  apply map_eq. intros a. subst h4 h3 h2 h1.
  destruct (decide (a = a3)) as [->|N3].
  { by rewrite lookup_delete_eq, Hs3. }
  rewrite lookup_delete_ne by done.
  destruct (decide (a = a2)) as [->|N2].
  { by rewrite lookup_delete_eq, Hs2. }
  rewrite lookup_delete_ne by done.
  destruct (decide (a = a1)) as [->|N1].
  { by rewrite lookup_delete_eq, Hf1. }
  rewrite lookup_delete_ne by done.
  by rewrite !lookup_insert_ne by done.
Qed.

(** ** A borrow followed by a listing, and by a second borrow *)

(** X9: a new reader borrows an available book and lists its books: the
    confirmation, the header and one line are written.  The line is the one
    of the dynamic class of the object: for a [Book] it now ends in
    [[Taken]]; for an [EBook], listed through the same [Book] pointer, it
    is the e-book line, the same as before the borrow and with no mark of
    the loan. *)
Theorem borrow_then_listBooks (n : string) (s : state) (a : loc) (o : object)
    (b : Book) :
  heap s !! a = Some o -> as_book o = Some b -> available b = true ->
  (this' ← Reader.borrowBook (Reader.new n) (Some a); Reader.listBooks this') s
  = Some (tt,
          mkState (<[a := with_book o (Book.borrow b)]> (heap s))
            (cout s +:+
             (n +:+ " borrowed " +:+ dquote +:+ title (book_base b) +:+ dquote
                +:+ nl) +:+
             (n +:+ " borrowed books:" +:+ nl) +:+
             object_line (with_book o (Book.borrow b)) +:+ nl)) /\
  (forall e, o = OEBook e ->
             object_line (with_book o (Book.borrow b)) = object_line o) /\
  (forall b0, o = OBook b0 ->
              object_line (with_book o (Book.borrow b))
              = "Book: " +:+ title (book_base b) +:+ " (" +:+
                show_int (year (book_base b)) +:+ "), " +:+ genre b +:+ " - "
                +:+ author_name (author (book_base b)) +:+ " [Taken]").
Proof.
  intros Ho Hb Hav. split; [|split].
  - rewrite (bind_some _ _ _ _ _
               (borrowBook_free (Reader.new n) s a o b Ho Hb Hav)).
    simpl.
    assert (Hos : Forall2
              (fun p o' => exists a',
                   p = Some a' /\
                   <[a := with_book o (Book.borrow b)]> (heap s) !! a'
                   = Some o')
              [Some a] [with_book o (Book.borrow b)]).
    { repeat constructor. exists a. split; [done|]. apply lookup_insert_eq. }
    unfold Reader.listBooks. simpl.
    rewrite (display_loop_objects _ _ _ _ _ Hos). simpl.
    by rewrite !append_assoc.
  - intros e ->. simpl in Hb. by injection Hb as <-.
  - intros b0 ->. simpl in Hb. by injection Hb as <-.
Qed.

Lemma borrow_then_listBooks_witness :
  let e := EBook.new "Emma" 1815 (mkAuthor "Jane Austen") "Novel" lit_5_6 in
  (this' ← Reader.borrowBook (Reader.new "Ann") (Some 2%nat);
   Reader.listBooks this') (mkState sample_heap "")
  = Some (tt,
          mkState (<[2%nat := OEBook (mkEBook (Book.borrow (ebook_base e))
                                              lit_5_6)]> sample_heap)
            ("Ann borrowed " +:+ dquote +:+ "Emma" +:+ dquote +:+ nl +:+
             "Ann borrowed books:" +:+ nl +:+
             "E-Book: Emma (1815), size: 5.6MB - Jane Austen" +:+ nl)).
Proof.
  intros e.
  exact (proj1 (borrow_then_listBooks "Ann" (mkState sample_heap "") 2%nat
                  (OEBook e) (ebook_base e) eq_refl eq_refl eq_refl)).
Defined.

(** X10: whatever a call of [borrowBook] on a book does, the book is
    unavailable afterwards, and the same call made again is refused: it
    writes [Book not available!] and changes neither the reader, who holds
    the book at most once more than before, nor the heap. *)
Theorem second_borrow_is_refused (this : Reader) (s : state) (a : loc) :
  book_ptr (heap s) (Some a) ->
  exists r1 s1,
    Reader.borrowBook this (Some a) s = Some (r1, s1) /\
    availability (heap s1) a = Some false /\
    (borrowed r1 = borrowed this \/ borrowed r1 = borrowed this ++ [Some a]) /\
    Reader.borrowBook r1 (Some a) s1
    = Some (r1, mkState (heap s1) (cout s1 +:+ "Book not available!" +:+ nl)).
Proof.
  intros Hp. destruct (book_ptr_lookup _ _ Hp) as (o & b & Ho & Hb).
  destruct (available b) eqn:Hav.
  - set (s1 := mkState (<[a := with_book o (Book.borrow b)]> (heap s))
                 (cout s +:+ reader_name this +:+ " borrowed " +:+ dquote +:+
                  title (book_base b) +:+ dquote +:+ nl)).
    exists (mkReader (reader_name this) (borrowed this ++ [Some a])), s1.
    assert (Ho1 : heap s1 !! a = Some (with_book o (Book.borrow b)))
      by apply lookup_insert_eq.
    pose proof (as_book_with_book o b (Book.borrow b) Hb) as Hb1.
    split; [exact (borrowBook_free this s a o b Ho Hb Hav)|].
    split; [exact (availability_lookup _ a _ _ Ho1 Hb1)|].
    split; [by right|].
    exact (borrowBook_taken _ s1 a _ _ Ho1 Hb1 eq_refl).
  - exists this, (mkState (heap s) (cout s +:+ "Book not available!" +:+ nl)).
    split; [exact (borrowBook_taken this s a o b Ho Hb Hav)|].
    split.
    { rewrite <- Hav. exact (availability_lookup _ a _ _ Ho Hb). }
    split; [by left|].
    exact (borrowBook_taken this (mkState (heap s) _) a o b Ho Hb Hav).
Qed.

Lemma second_borrow_is_refused_witness :
  let this := Reader.new "Ann" in
  let s := mkState sample_heap "" in
  book_ptr (heap s) (Some 1%nat) /\
  exists r1 s1,
    Reader.borrowBook this (Some 1%nat) s = Some (r1, s1) /\
    availability (heap s1) 1%nat = Some false /\
    (borrowed r1 = borrowed this \/
     borrowed r1 = borrowed this ++ [Some 1%nat]) /\
    Reader.borrowBook r1 (Some 1%nat) s1
    = Some (r1, mkState (heap s1) (cout s1 +:+ "Book not available!" +:+ nl)).
Proof.
  intros this s.
  assert (Hp : book_ptr (heap s) (Some 1%nat)) by (vm_compute; eauto).
  split; [exact Hp|].
  exact (second_borrow_is_refused this s 1%nat Hp).
Defined.

(** ** Worked examples *)

(** The formatting of [double] values on concrete numbers: 5.6, 1, 10^5,
    10^6, 0.5, 617282.5 (a tie, rounded to even), 999999.5 (rounding carries
    into the exponent), 2^-20, 0.0001 and 0.00001 as binary64 numbers. *)
Example show_double_samples :
  show_double <$>
    [ lit_5_6; DFinite false 1 0; DFinite false 100000 0;
      DFinite false 1000000 0; DFinite false 1 (-1);
      DFinite false 1234565 (-1); DFinite false 1999999 (-1);
      DFinite true 1 (-20);
      DFinite false 7378697629483821 (-66);
      DFinite false 5902958103587057 (-69);
      DZero false; DInf true ]
  = [ "5.6"; "1"; "100000"; "1e+06"; "0.5"; "617282"; "1e+06";
      "-9.53674e-07"; "0.0001"; "1e-05"; "0"; "-inf" ].
Proof. vm_compute. reflexivity. Qed.

Example show_int_samples :
  show_int <$> [2020; 0; -7; 2147483647] = ["2020"; "0"; "-7"; "2147483647"].
Proof. vm_compute. reflexivity. Qed.

(** A display loop over a vector with a null entry in the middle. *)
Example printList_skips_null :
  cout ∘ snd <$>
    printList [Some 2%nat; None; Some 1%nat] "Shelf" (mkState sample_heap "")
  = Some (nl +:+ "=== Shelf ===" +:+ nl +:+
          "E-Book: Emma (1815), size: 5.6MB - Jane Austen" +:+ nl +:+
          "Book: Dune (1965), Fiction - Frank Herbert [Available]" +:+ nl).
Proof. vm_compute. reflexivity. Qed.

(** Everything [main] writes, and its return value. *)
Example main_transcript :
  (fun x : Z * state => (x.1, cout x.2)) <$> main initial
  = Some (0,
      "Ivan Petrov borrowed " +:+ dquote +:+ "C++ for Beginners" +:+ dquote
        +:+ nl +:+
      "Ivan Petrov borrowed books:" +:+ nl +:+
      "Book: C++ for Beginners (2020), Education - Herbert Schildt [Taken]"
        +:+ nl +:+
      nl +:+ "=== Library Collection ===" +:+ nl +:+
      "Book: C++ for Beginners (2020), Education - Herbert Schildt [Taken]"
        +:+ nl +:+
      "E-Book: The C++ Programming Language (2013), size: 5.6MB - Bjarne Stroustrup"
        +:+ nl +:+
      "Magazine: TechWorld #12 (2025) - Herbert Schildt" +:+ nl +:+
      "Olena is Admin" +:+ nl +:+
      nl +:+ "=== All Publications (via template) ===" +:+ nl +:+
      "Book: C++ for Beginners (2020), Education - Herbert Schildt [Taken]"
        +:+ nl +:+
      "E-Book: The C++ Programming Language (2013), size: 5.6MB - Bjarne Stroustrup"
        +:+ nl +:+
      "Magazine: TechWorld #12 (2025) - Herbert Schildt" +:+ nl).
Proof. vm_compute. reflexivity. Qed.
